(** * SupabaseReplication: pull, push and realtime relay

    A shallow embedding of [supabase-replication.js] (class
    [SupabaseReplication]) together with a small executable model of the
    remote table it talks to through the Supabase client: filter
    predicates, ascending ordering, limit, insert and conditional update
    with an affected-row count. *)

From Stdlib Require Import String Ascii ZArith Bool Arith Lia List.
From Stdlib Require Import Sorting.Sorted Sorting.Permutation.
From Stdlib Require Import Structures.OrdersEx Classes.RelationClasses.
Import ListNotations.

Local Open Scope string_scope.
Local Open Scope list_scope.

(** ** JavaScript values held in rows *)

Module Js.

(** The values a row of the table can hold in a column.  Numbers are the
    integer-valued ones, kept by their value as the store holds it (what
    the client holds of a number is [toDouble] below); a structured
    value (array or object) is kept by its JSON text. *)
Inductive value : Type :=
| VUndefined
| VNull
| VBool (b : bool)
| VNumber (n : Z)
| VString (s : string)
| VObject (json : string).

(** [typeof v] *)
Definition typeof (v : value) : string :=
  match v with
  | VUndefined => "undefined"
  | VNull => "object"
  | VBool _ => "boolean"
  | VNumber _ => "number"
  | VString _ => "string"
  | VObject _ => "object"
  end.

(** JavaScript truthiness, as used by [a && b] and [if (a)]. *)
Definition truthy (v : value) : bool :=
  match v with
  | VUndefined => false
  | VNull => false
  | VBool b => b
  | VNumber n => negb (n =? 0)%Z
  | VString s => negb (s =? "")
  | VObject _ => true
  end.

Definition value_eqb (a b : value) : bool :=
  match a, b with
  | VUndefined, VUndefined => true
  | VNull, VNull => true
  | VBool x, VBool y => Bool.eqb x y
  | VNumber x, VNumber y => (x =? y)%Z
  | VString x, VString y => (x =? y)
  | VObject x, VObject y => (x =? y)
  | _, _ => false
  end.

(** The order of the remote store on column values: values of one kind
    are compared among themselves (numbers numerically, strings
    lexicographically by character code), and kinds are ranked so that
    the order is total. *)
Definition rank (v : value) : Z :=
  match v with
  | VUndefined => 0
  | VNull => 1
  | VBool _ => 2
  | VNumber _ => 3
  | VString _ => 4
  | VObject _ => 5
  end.

Definition bool_compare (a b : bool) : comparison :=
  match a, b with
  | false, true => Lt
  | true, false => Gt
  | _, _ => Eq
  end.

Definition compare (a b : value) : comparison :=
  match a, b with
  | VBool x, VBool y => bool_compare x y
  | VNumber x, VNumber y => Z.compare x y
  | VString x, VString y => String_as_OT.compare x y
  | VObject x, VObject y => String_as_OT.compare x y
  | _, _ => Z.compare (rank a) (rank b)
  end.

(** The client holds a number as an IEEE 754 double, the store as the
    integer itself.  Up to [Number.MAX_SAFE_INTEGER] every integer is a
    double of its own, and [JSON.stringify] writes it with all its
    digits. *)
Definition MAX_SAFE_INTEGER : Z := 2 ^ 53 - 1.

(** [Number.isSafeInteger (z)] *)
Definition isSafeInteger (z : Z) : bool := (Z.abs z <=? MAX_SAFE_INTEGER)%Z.

(** The double [JSON.parse] makes of the digits of an integer: the
    integer itself up to [2 ^ 53]; beyond, the 53 leading bits are kept
    and the rest is rounded to the nearest double, a tie to the one with
    an even significand.  (The integers of the store stay far below
    [2 ^ 1024], where a double overflows.) *)
Definition toDouble (z : Z) : Z :=
  (if Z.abs z <=? 2 ^ 53 then z
   else
     let e := Z.log2 (Z.abs z) - 52 in
     let q := Z.abs z / 2 ^ e in
     let r := Z.abs z mod 2 ^ e in
     let up := (2 ^ (e - 1) <? r) || ((r =? 2 ^ (e - 1)) && Z.odd q) in
     Z.sgn z * ((if up then q + 1 else q) * 2 ^ e))%Z.

(** A column value as the client decodes it from a reply. *)
Definition decode (v : value) : value :=
  match v with
  | VNumber z => VNumber (toDouble z)
  | _ => v
  end.

(** A value the client holds as the store does. *)
Definition safe_value (v : value) : bool :=
  match v with
  | VNumber z => isSafeInteger z
  | _ => true
  end.

End Js.

Import Js.

(** ** Rows: JavaScript objects as ordered field lists *)

Definition Row : Type := list (string * value).

(** [r[field]]: the first binding of the field, [undefined] when the
    object has none. *)
Fixpoint get (r : Row) (field : string) : value :=
  match r with
  | [] => VUndefined
  | (k, v) :: rest => if k =? field then v else get rest field
  end.

(** [r[field] = v] on a copy: overwrite in place when the key exists,
    append otherwise. *)
Fixpoint set (r : Row) (field : string) (v : value) : Row :=
  match r with
  | [] => [(field, v)]
  | (k, w) :: rest =>
      if k =? field then (k, v) :: rest else (k, w) :: set rest field v
  end.

(** [Object.entries (o)] is the field list itself. *)
Definition entries (r : Row) : list (string * value) := r.

(** A row of a reply as the client decodes it, and the rows that reach
    the client as the store holds them. *)
Definition decode_row (r : Row) : Row :=
  map (fun kv => (fst kv, decode (snd kv))) r.

Definition safe_row (r : Row) : bool :=
  forallb (fun kv => safe_value (snd kv)) r.

(** ** The remote table behind the Supabase client

    The client library and the database are collaborators outside
    [supabase-replication.js]; they are modelled here by the query
    surface the replication consumes: filter predicates (greater-than,
    equal, is, conjunction, disjunction) over named columns, ascending
    ordering by named columns, result limiting, insert, and conditional
    update with an exact affected-row count. *)

Record PostgrestError : Type := { code : string; message : string }.

Inductive condition : Type :=
| CGt (column : string) (v : value)
| CEq (column : string) (v : value)
| CIs (column : string) (v : value)
| CAnd (a b : condition)
| COr (a b : condition).

Fixpoint holds (f : condition) (r : Row) : bool :=
  match f with
  | CGt c v => match Js.compare (get r c) v with Gt => true | _ => false end
  | CEq c v => value_eqb (get r c) v
  | CIs c v => value_eqb (get r c) v
  | CAnd a b => holds a r && holds b r
  | COr a b => holds a r || holds b r
  end.

(** A [select] request as the builder accumulates it. *)
Record select_query : Type := {
  sel_from : string;
  sel_filters : list condition;
  sel_order : list string;
  sel_limit : option nat
}.

(** [client.from(t).select()] *)
Definition from_select (t : string) : select_query :=
  {| sel_from := t; sel_filters := []; sel_order := []; sel_limit := None |}.

Definition sel_where (q : select_query) (f : condition) : select_query :=
  {| sel_from := sel_from q; sel_filters := sel_filters q ++ [f];
     sel_order := sel_order q; sel_limit := sel_limit q |}.

(** [.or(...)], [.eq(column, v)], [.order(column)], [.limit(n)] *)
Definition sel_or (q : select_query) (f : condition) : select_query := sel_where q f.

Definition sel_eq (q : select_query) (c : string) (v : value) : select_query :=
  sel_where q (CEq c v).

Definition sel_order_by (q : select_query) (c : string) : select_query :=
  {| sel_from := sel_from q; sel_filters := sel_filters q;
     sel_order := sel_order q ++ [c]; sel_limit := sel_limit q |}.

Definition sel_limit_to (q : select_query) (n : nat) : select_query :=
  {| sel_from := sel_from q; sel_filters := sel_filters q;
     sel_order := sel_order q; sel_limit := Some n |}.

(** An [update] request: the new column values and the conditions. *)
Record update_query : Type := {
  upd_from : string;
  upd_values : Row;
  upd_filters : list condition
}.

(** [client.from(t).update(values, { count: "exact" })] *)
Definition from_update (t : string) (values : Row) : update_query :=
  {| upd_from := t; upd_values := values; upd_filters := [] |}.

Definition upd_where (q : update_query) (f : condition) : update_query :=
  {| upd_from := upd_from q; upd_values := upd_values q;
     upd_filters := upd_filters q ++ [f] |}.

Definition upd_eq (q : update_query) (c : string) (v : value) : update_query :=
  upd_where q (CEq c v).

Definition upd_is (q : update_query) (c : string) (v : value) : update_query :=
  upd_where q (CIs c v).

(** What awaiting a request yields: [{ data, error, count }]. *)
Record reply : Type := {
  data : list Row;
  error : option PostgrestError;
  count : option nat
}.

Definition reply_error (e : PostgrestError) : reply :=
  {| data := []; error := Some e; count := None |}.

Definition reply_rows (l : list Row) : reply :=
  {| data := l; error := None; count := None |}.

Definition reply_count (n : nat) : reply :=
  {| data := []; error := None; count := Some n |}.

(** The state of the remote side: the rows of the table, the column its
    primary-key constraint is on, and, for each request still to come,
    whether the transport or the server fails it ([Some e]) or lets it
    through ([None]; also when the list is exhausted). *)
Record remote : Type := {
  rows : list Row;
  pkey : string;
  faults : list (option PostgrestError)
}.

Definition with_rows (st : remote) (l : list Row) : remote :=
  {| rows := l; pkey := pkey st; faults := faults st |}.

Definition next_fault (st : remote) : option PostgrestError * remote :=
  match faults st with
  | [] => (None, st)
  | f :: fs => (f, {| rows := rows st; pkey := pkey st; faults := fs |})
  end.

(** Ascending order by a list of columns, the first column first. *)
Fixpoint order_compare (cols : list string) (a b : Row) : comparison :=
  match cols with
  | [] => Eq
  | c :: cs =>
      match Js.compare (get a c) (get b c) with
      | Eq => order_compare cs a b
      | o => o
      end
  end.

Definition order_leb (cols : list string) (a b : Row) : bool :=
  match order_compare cols a b with Gt => false | _ => true end.

Fixpoint insert_sorted (cols : list string) (x : Row) (l : list Row) : list Row :=
  match l with
  | [] => [x]
  | y :: l' =>
      if order_leb cols x y then x :: y :: l' else y :: insert_sorted cols x l'
  end.

Fixpoint sort_by (cols : list string) (l : list Row) : list Row :=
  match l with
  | [] => []
  | x :: l' => insert_sorted cols x (sort_by cols l')
  end.

Definition matches (fs : list condition) (r : Row) : bool :=
  forallb (fun f => holds f r) fs.

Definition apply_limit (lim : option nat) (l : list Row) : list Row :=
  match lim with
  | Some n => firstn n l
  | None => l
  end.

(** The rows a [select] request returns from a table. *)
Definition select_rows (q : select_query) (tbl : list Row) : list Row :=
  apply_limit (sel_limit q)
    (sort_by (sel_order q) (filter (matches (sel_filters q)) tbl)).

Definition POSTGRES_DUPLICATE_KEY_ERROR_CODE : string := "23505".

Definition duplicate_key : PostgrestError :=
  {| code := POSTGRES_DUPLICATE_KEY_ERROR_CODE;
     message := "duplicate key value violates unique constraint" |}.

(** No two rows agree on the column. *)
Fixpoint distinct_on (c : string) (l : list Row) : bool :=
  match l with
  | [] => true
  | r :: l' =>
      negb (existsb (fun r' => value_eqb (get r' c) (get r c)) l')
      && distinct_on c l'
  end.

(** [SET] every column of [values] on a row. *)
Definition patch (r values : Row) : Row :=
  fold_left (fun acc kv => set acc (fst kv) (snd kv)) values r.

Definition updated_rows (q : update_query) (tbl : list Row) : list Row :=
  map (fun r => if matches (upd_filters q) r then patch r (upd_values q) else r) tbl.

Definition affected (q : update_query) (tbl : list Row) : nat :=
  length (filter (matches (upd_filters q)) tbl).

Definition run_select (q : select_query) (st : remote) : reply * remote :=
  match next_fault st with
  | (Some e, st') => (reply_error e, st')
  | (None, st') => (reply_rows (select_rows q (rows st')), st')
  end.

(** [insert]: refused with the duplicate-key error when a row holds the
    key of the document, which is otherwise stored as it was sent; the
    columns a store fills in by itself on a write (defaults, the
    last-modified stamp) are taken to be in the document already. *)
Definition run_insert (t : string) (doc : Row) (st : remote) : reply * remote :=
  match next_fault st with
  | (Some e, st') => (reply_error e, st')
  | (None, st') =>
      if existsb (fun r => value_eqb (get r (pkey st')) (get doc (pkey st'))) (rows st')
      then (reply_error duplicate_key, st')
      else (reply_rows [], with_rows st' (rows st' ++ [doc]))
  end.

Definition run_update (q : update_query) (st : remote) : reply * remote :=
  match next_fault st with
  | (Some e, st') => (reply_error e, st')
  | (None, st') =>
      if distinct_on (pkey st') (updated_rows q (rows st'))
      then (reply_count (affected q (rows st')),
            with_rows st' (updated_rows q (rows st')))
      else (reply_error duplicate_key, st')
  end.

(** ** Asynchronous code as state passing with exceptions *)

Inductive exn : Type :=
| PgError (e : PostgrestError)
| JsError (msg : string).

Inductive outcome (A : Type) : Type :=
| Returned (a : A)
| Threw (e : exn).

Arguments Returned {A} a.
Arguments Threw {A} e.

Definition M (A : Type) : Type := remote -> outcome A * remote.

Definition ret {A : Type} (a : A) : M A := fun st => (Returned a, st).

Definition throw {A : Type} (e : exn) : M A := fun st => (Threw e, st).

Definition bind {A B : Type} (m : M A) (k : A -> M B) : M B :=
  fun st =>
    match m st with
    | (Returned a, st') => k a st'
    | (Threw e, st') => (Threw e, st')
    end.

Notation "x <- m ;; k" := (bind m (fun x => k))
  (at level 61, m at next level, right associativity).

(** [await query] *)
Definition await_select (q : select_query) : M reply :=
  fun st => let (r, st') := run_select q st in (Returned r, st').

Definition await_insert (t : string) (doc : Row) : M reply :=
  fun st => let (r, st') := run_insert t doc st in (Returned r, st').

Definition await_update (q : update_query) : M reply :=
  fun st => let (r, st') := run_update q st in (Returned r, st').

(** ** The replication object *)

Record SupabaseReplicationCheckpoint : Type := {
  modified : value;
  primaryKeyValue : value
}.

(** The result of a pull and the item of the realtime stream:
    [{ checkpoint, documents }]. *)
Record ChangeEvent : Type := {
  checkpoint : option SupabaseReplicationCheckpoint;
  documents : list Row
}.

(** A row of the push batch; [assumedMasterState] is absent for a
    document the remote side has not seen. *)
Record PushRow : Type := {
  newDocumentState : Row;
  assumedMasterState : option Row
}.

Record PullOptions : Type := {
  realtimePostgresChanges : option bool;
  lastModifiedField : option string
}.

Record PushOptions : Type := {
  updateHandler : option (PushRow -> M bool)
}.

Record SupabaseReplicationOptions : Type := {
  replicationIdentifier : string;
  collection_name : string;
  collection_primaryPath : string;
  opt_table : option string;
  opt_primaryKey : option string;
  opt_deletedField : option string;
  pull : option PullOptions;
  push : option PushOptions;
  opt_live : option bool;
  opt_autoStart : option bool
}.

Definition DEFAULT_LAST_MODIFIED_FIELD : string := "_modified".
Definition DEFAULT_DELETED_FIELD : string := "_deleted".

(** [a || b] on an optional string: the empty string is falsy too. *)
Definition or_string (a : option string) (b : string) : string :=
  match a with
  | Some s => if s =? "" then b else s
  | None => b
  end.

(** [typeof a === "undefined" ? d : a] *)
Definition or_undefined (a : option bool) (d : bool) : bool :=
  match a with
  | Some b => b
  | None => d
  end.

Record SupabaseReplication : Type := {
  options : SupabaseReplicationOptions;
  table : string;
  primaryKey : string;
  lastModifiedFieldName : string;
  deletedField : string;
  live : bool;
  autoStart : bool
}.

(** The constructor, up to the call of [start]. *)
Definition new_SupabaseReplication (o : SupabaseReplicationOptions) : SupabaseReplication :=
  {| options := o;
     table := or_string (opt_table o) (collection_name o);
     primaryKey := or_string (opt_primaryKey o) (collection_primaryPath o);
     lastModifiedFieldName :=
       or_string
         (match pull o with Some p => lastModifiedField p | None => None end)
         DEFAULT_LAST_MODIFIED_FIELD;
     deletedField := or_string (opt_deletedField o) DEFAULT_DELETED_FIELD;
     live := or_undefined (opt_live o) true;
     autoStart := or_undefined (opt_autoStart o) true |}.

Definition rowToRxDoc (self : SupabaseReplication) (r : Row) : Row := r.

Definition rowToCheckpoint (self : SupabaseReplication) (r : Row)
  : SupabaseReplicationCheckpoint :=
  {| modified := get r (lastModifiedFieldName self);
     primaryKeyValue := get r (primaryKey self) |}.

(** The request [pullHandler] builds before awaiting it.  The text of
    the [or(...)] filter is kept as the condition it denotes: each
    operand is the value the server reads back from its
    [JSON.stringify] form. *)
Definition pull_query (self : SupabaseReplication)
  (lastCheckpoint : option SupabaseReplicationCheckpoint) (batchSize : nat)
  : select_query :=
  let query := from_select (table self) in
  let query :=
    match lastCheckpoint with
    | Some cp =>
        if truthy (modified cp) then
          let lastModified := modified cp in
          let lastPrimaryKey := primaryKeyValue cp in
          let isNewer := CGt (lastModifiedFieldName self) lastModified in
          let isSameAge := CEq (lastModifiedFieldName self) lastModified in
          sel_or query
            (COr isNewer (CAnd isSameAge (CGt (primaryKey self) lastPrimaryKey)))
        else query
    | None => query
    end in
  sel_limit_to
    (sel_order_by (sel_order_by query (lastModifiedFieldName self)) (primaryKey self))
    batchSize.

(** Pulls all changes since the last checkpoint. *)
Definition pullHandler (self : SupabaseReplication)
  (lastCheckpoint : option SupabaseReplicationCheckpoint) (batchSize : nat)
  : M ChangeEvent :=
  r <- await_select (pull_query self lastCheckpoint batchSize) ;;
  match error r with
  | Some e => throw (PgError e)
  | None =>
      if (length (data r) =? 0)%nat then
        ret {| checkpoint := lastCheckpoint; documents := [] |}
      else
        ret {| checkpoint :=
                 Some (rowToCheckpoint self (nth (length (data r) - 1) (data r) []));
               documents := map (rowToRxDoc self) (data r) |}
  end.

Definition fetchByPrimaryKey (self : SupabaseReplication) (primaryKeyValue : value)
  : M Row :=
  r <- await_select
         (sel_limit_to
            (sel_eq (from_select (table self)) (primaryKey self) primaryKeyValue) 1) ;;
  match error r with
  | Some e => throw (PgError e)
  | None =>
      if negb (length (data r) =? 1)%nat then
        throw (JsError "No row with given primary key")
      else ret (rowToRxDoc self (nth 0 (data r) []))
  end.

(** Tries to insert a new row; returns the current state of the row in
    case of a conflict. *)
Definition handleInsertion (self : SupabaseReplication) (doc : Row) : M (list Row) :=
  r <- await_insert (table self) doc ;;
  match error r with
  | None => ret []
  | Some e =>
      if code e =? POSTGRES_DUPLICATE_KEY_ERROR_CODE then
        d <- fetchByPrimaryKey self (get doc (primaryKey self)) ;;
        ret [d]
      else throw (PgError e)
  end.

(** The [forEach] over the entries of [assumedMasterState]: one
    condition per field, or the exception of the first unsupported one. *)
Fixpoint add_conditions (es : list (string * value)) (query : update_query)
  : outcome update_query :=
  match es with
  | [] => Returned query
  | (field, v) :: rest =>
      let type := typeof v in
      if (type =? "string") || (type =? "number") then
        add_conditions rest (upd_eq query field v)
      else if (type =? "boolean") || value_eqb v VNull then
        add_conditions rest (upd_is query field v)
      else
        Threw (JsError ("replicateSupabase: Unsupported field of type " ++ type))
  end.

(** Updates the row only if all database fields match the expected state. *)
Definition defaultUpdateHandler (self : SupabaseReplication) (row : PushRow) : M bool :=
  let query := from_update (table self) (newDocumentState row) in
  match assumedMasterState row with
  | None => throw (JsError "Cannot convert undefined or null to object")
  | Some assumed =>
      match add_conditions (entries assumed) query with
      | Threw e => throw e
      | Returned query =>
          r <- await_update query ;;
          match error r with
          | Some e => throw (PgError e)
          | None =>
              ret (match count r with Some 1 => true | _ => false end)
          end
      end
  end.

(** Updates a row if all fields match the local state; otherwise the
    current state is fetched and handed back. *)
Definition handleUpdate (self : SupabaseReplication) (row : PushRow) : M (list Row) :=
  let updateHandler :=
    match
      match push (options self) with Some p => updateHandler p | None => None end
    with
    | Some h => h
    | None => defaultUpdateHandler self
    end in
  applied <- updateHandler row ;;
  if (applied : bool) then ret []
  else
    d <- fetchByPrimaryKey self (get (newDocumentState row) (primaryKey self)) ;;
    ret [d].

(** Pushes local changes. *)
Definition pushHandler (self : SupabaseReplication) (rows : list PushRow) : M (list Row) :=
  match rows with
  | [row] =>
      match assumedMasterState row with
      | Some _ => handleUpdate self row
      | None => handleInsertion self (newDocumentState row)
      end
  | _ => throw (JsError "Invalid batch size")
  end.

(** The push of one document. *)
Definition pushOne (self : SupabaseReplication) (row : PushRow) : M (list Row) :=
  pushHandler self [row].

(** The event a pull returns for the rows the request delivered. *)
Definition pull_event (self : SupabaseReplication)
  (lastCheckpoint : option SupabaseReplicationCheckpoint) (batch : list Row)
  : ChangeEvent :=
  match batch with
  | [] => {| checkpoint := lastCheckpoint; documents := [] |}
  | _ => {| checkpoint := Some (rowToCheckpoint self (last batch []));
            documents := batch |}
  end.

(** The pull as its caller receives it.  [data] reaches [pullHandler]
    as the client decoded it from the reply, every number a double, so
    the event handed to the caller is the one built from the decoded
    rows; the request was built from the checkpoint the caller holds. *)
Definition pull_received (self : SupabaseReplication)
  (lastCheckpoint : option SupabaseReplicationCheckpoint) (batchSize : nat)
  : M ChangeEvent :=
  ev <- pullHandler self lastCheckpoint batchSize ;;
  ret (pull_event self lastCheckpoint (map decode_row (documents ev))).

(** The orchestrator's pull loop: pull with a fixed batch size, feeding
    each checkpoint received into the next call, until a batch comes
    back empty; the documents of all batches in the order received.
    [None] when the calls allowed by [fuel] did not reach an empty
    batch or a call failed. *)
Fixpoint pullUntilEmpty (fuel : nat) (self : SupabaseReplication)
  (lastCheckpoint : option SupabaseReplicationCheckpoint) (batchSize : nat)
  (st : remote) : option (list Row) :=
  match fuel with
  | O => None
  | S fuel' =>
      match pull_received self lastCheckpoint batchSize st with
      | (Returned ev, st') =>
          match documents ev with
          | [] => Some []
          | docs =>
              match pullUntilEmpty fuel' self (checkpoint ev) batchSize st' with
              | Some rest => Some (docs ++ rest)
              | None => None
              end
          end
      | (Threw _, _) => None
      end
  end.


(** ** The realtime relay

    The mutable part of the object that the relay uses: the channel kept
    in [realtimeChannel], the channels the client has opened (each one
    joined or not; a channel delivers notifications to its callback
    only while joined), and the items pushed so far into the
    [realtimeChanges] subject. *)

Record Payload : Type := {
  eventType : string;
  new : option Row
}.

Record relay : Type := {
  realtimeChannel : option nat;
  channels : list bool;
  realtimeChanges : list ChangeEvent
}.

Definition present {A : Type} (o : option A) : bool :=
  match o with Some _ => true | None => false end.

Definition relay_init : relay :=
  {| realtimeChannel := None; channels := []; realtimeChanges := [] |}.

(** The callback registered on the channel. *)
Definition on_postgres_changes (self : SupabaseReplication) (payload : Payload)
  (sink : list ChangeEvent) : list ChangeEvent :=
  if (eventType payload =? "DELETE") || negb (present (new payload)) then sink
  else
    match new payload with
    | Some r =>
        sink ++ [ {| checkpoint := Some (rowToCheckpoint self r);
                     documents := [rowToRxDoc self r] |} ]
    | None => sink
    end.

(** [client.channel(...).on(...).subscribe()] opens a channel, joined. *)
Definition watchPostgresChanges (self : SupabaseReplication) (st : relay) : relay :=
  {| realtimeChannel := Some (length (channels st));
     channels := channels st ++ [true];
     realtimeChanges := realtimeChanges st |}.

(** [start], up to the call of the inherited [start]. *)
Definition start (self : SupabaseReplication) (st : relay) : relay :=
  if live self
     && match pull (options self) with
        | Some p =>
            match realtimePostgresChanges p with
            | Some b => b
            | None => true
            end
        | None => false
        end
  then watchPostgresChanges self st
  else st.

Fixpoint leave (i : nat) (chs : list bool) : list bool :=
  match chs, i with
  | [], _ => []
  | _ :: rest, O => false :: rest
  | c :: rest, S i' => c :: leave i' rest
  end.

(** [cancel], next to the inherited [cancel]: it resolves once the
    channel kept in the object has left. *)
Definition cancel (self : SupabaseReplication) (st : relay) : relay :=
  match realtimeChannel st with
  | Some i =>
      {| realtimeChannel := realtimeChannel st;
         channels := leave i (channels st);
         realtimeChanges := realtimeChanges st |}
  | None => st
  end.

(** A change notification from the table reaches the callback of every
    joined channel. *)
Definition deliver (self : SupabaseReplication) (payload : Payload) (st : relay) : relay :=
  {| realtimeChannel := realtimeChannel st;
     channels := channels st;
     realtimeChanges :=
       fold_left
         (fun sink (joined : bool) =>
            if joined then on_postgres_changes self payload sink else sink)
         (channels st) (realtimeChanges st) |}.

Inductive action : Type :=
| Start
| Cancel
| Notify (payload : Payload).

Definition step (self : SupabaseReplication) (st : relay) (a : action) : relay :=
  match a with
  | Start => start self st
  | Cancel => cancel self st
  | Notify p => deliver self p st
  end.

Definition run (self : SupabaseReplication) (st : relay) (trace : list action) : relay :=
  fold_left (step self) trace st.


(** ** Notions the properties are stated with *)

(** [modified > C.modified OR (modified = C.modified AND primaryKey > C.primaryKeyValue)] *)
Definition after_checkpoint (self : SupabaseReplication)
  (C : SupabaseReplicationCheckpoint) (r : Row) : bool :=
  match Js.compare (get r (lastModifiedFieldName self)) (modified C) with
  | Gt => true
  | Eq =>
      match Js.compare (get r (primaryKey self)) (primaryKeyValue C) with
      | Gt => true
      | _ => false
      end
  | Lt => false
  end.

(** The rows a pull from a checkpoint is to deliver: those after the
    checkpoint, every row when there is none. *)
Definition beyond (self : SupabaseReplication)
  (lastCheckpoint : option SupabaseReplicationCheckpoint) (r : Row) : bool :=
  match lastCheckpoint with
  | Some C => after_checkpoint self C r
  | None => true
  end.

(** The [(modified, primaryKey)] columns of the replication. *)
Definition key_columns (self : SupabaseReplication) : list string :=
  [lastModifiedFieldName self; primaryKey self].

Definition key_le (self : SupabaseReplication) (a b : Row) : Prop :=
  order_compare (key_columns self) a b <> Gt.

Definition key_lt (self : SupabaseReplication) (a b : Row) : Prop :=
  order_compare (key_columns self) a b = Lt.

(** [batch] is the first [n] of the rows of [tbl] satisfying [p], in
    ascending key order: it can be completed by [rest] into an ordered
    arrangement of exactly those rows, and is as long as [n] allows. *)
Definition first_in_order (self : SupabaseReplication) (n : nat)
  (p : Row -> bool) (tbl batch : list Row) : Prop :=
  exists rest,
    Permutation (batch ++ rest) (filter p tbl)
    /\ StronglySorted (key_le self) (batch ++ rest)
    /\ length batch = Nat.min n (length (filter p tbl)).

Definition checkpoint_compare (a b : SupabaseReplicationCheckpoint) : comparison :=
  match Js.compare (modified a) (modified b) with
  | Eq => Js.compare (primaryKeyValue a) (primaryKeyValue b)
  | o => o
  end.


(** Tables of the data model.  Every row carries a truthy
    last-modified value ([stamped]), more precisely a non-empty string
    ([timestamped]); no two rows share their [(modified, primaryKey)]
    pair ([distinct_keys]). *)
Definition stamped (self : SupabaseReplication) (tbl : list Row) : Prop :=
  Forall (fun r => truthy (get r (lastModifiedFieldName self)) = true) tbl.

Definition is_timestamp (v : value) : Prop :=
  exists s, v = VString s /\ s <> "".

Definition timestamped (self : SupabaseReplication) (tbl : list Row) : Prop :=
  Forall (fun r => is_timestamp (get r (lastModifiedFieldName self))) tbl.

Definition distinct_keys (self : SupabaseReplication) (tbl : list Row) : Prop :=
  NoDup (map (rowToCheckpoint self) tbl).

(** Every number of the table is a safe integer: the rows reach the
    client as the store holds them. *)
Definition safe_numbers (tbl : list Row) : Prop :=
  Forall (fun r => safe_row r = true) tbl.




(** A field value the default update handler can compare. *)
Definition comparable (v : value) : bool :=
  match v with
  | VString _ | VNumber _ | VBool _ | VNull => true
  | _ => false
  end.

(** The condition the default update handler puts on one field. *)
Definition field_condition (kv : string * value) : condition :=
  match snd kv with
  | VString _ | VNumber _ => CEq (fst kv) (snd kv)
  | _ => CIs (fst kv) (snd kv)
  end.

(** Exact agreement of a row with every field of an assumed state. *)
Definition agrees (assumed r : Row) : bool :=
  forallb (fun kv => value_eqb (get r (fst kv)) (snd kv)) assumed.

(** The rows the request of [pullHandler] selects: those satisfying its
    filters, which do not depend on the batch size. *)
Definition selects (self : SupabaseReplication)
  (lastCheckpoint : option SupabaseReplicationCheckpoint) (r : Row) : bool :=
  matches (sel_filters (pull_query self lastCheckpoint 0)) r.

(** The next request goes through; the remote side after it. *)
Definition answers (st : remote) : Prop := fst (next_fault st) = None.

Definition after_request (st : remote) : remote := snd (next_fault st).

(** Every request to come goes through. *)
Definition reliable (st : remote) : Prop :=
  Forall (fun f => f = None) (faults st).

(** [a] is not above [b] in the order by the columns. *)
Definition leb_on (cols : list string) (a b : Row) : Prop :=
  order_leb cols a b = true.

(** The rows of a pull against a remote side that answers. *)
Definition pulled (self : SupabaseReplication)
  (lc : option SupabaseReplicationCheckpoint) (n : nat)
  (tbl : list Row) : list Row :=
  firstn n (sort_by (key_columns self) (filter (selects self lc) tbl)).

(** The update strategy the options supply, if any. *)
Definition custom_updateHandler (self : SupabaseReplication)
  : option (PushRow -> M bool) :=
  match push (options self) with
  | Some p => updateHandler p
  | None => None
  end.

(** The conflict result: the row currently stored under the primary
    key, fetched and handed back as a one-element list. *)
Definition conflict_result (self : SupabaseReplication) (key : value) : M (list Row) :=
  d <- fetchByPrimaryKey self key ;; ret [d].

(** The request of the default update handler for fields it supports. *)
Definition conditional_update (self : SupabaseReplication) (values assumed : Row)
  : update_query :=
  {| upd_from := table self;
     upd_values := values;
     upd_filters := map field_condition assumed |}.

Definition supported (assumed : Row) : bool :=
  forallb (fun kv => comparable (snd kv)) assumed.

(** The first row stored under a primary-key value. *)
Definition stored (self : SupabaseReplication) (key : value) (tbl : list Row)
  : option Row :=
  find (fun r => value_eqb (get r (primaryKey self)) key) tbl.

(** No channel of the client is joined. *)
Definition quiet (st : relay) : Prop :=
  Forall (fun joined => joined = false) (channels st).



(** The item the relay publishes for the row of a notification. *)
Definition relayed (self : SupabaseReplication) (r : Row) : ChangeEvent :=
  {| checkpoint := Some (rowToCheckpoint self r); documents := [rowToRxDoc self r] |}.

(** ** A replication of a [humans] collection, for concrete runs *)

Definition humans_options : SupabaseReplicationOptions :=
  {| replicationIdentifier := "test";
     collection_name := "humans";
     collection_primaryPath := "id";
     opt_table := None;
     opt_primaryKey := None;
     opt_deletedField := None;
     pull := Some {| realtimePostgresChanges := None; lastModifiedField := None |};
     push := Some {| updateHandler := None |};
     opt_live := None;
     opt_autoStart := None |}.

Definition humans : SupabaseReplication := new_SupabaseReplication humans_options.

Definition human (id name : string) (age : value) (stamp : string) : Row :=
  [("id", VString id); ("name", VString name); ("age", age);
   ("_deleted", VBool false); ("_modified", VString stamp)].

(** A remote [humans] table, keyed by [id], whose requests go through. *)
Definition remote_of (tbl : list Row) : remote :=
  {| rows := tbl; pkey := "id"; faults := [] |}.

Definition alice : Row := human "1" "Alice" VNull "2023-04-01T10:00:00".
Definition human2 : Row := human "2" "Human 2" VNull "2023-04-01T10:00:05".
Definition human3 : Row := human "3" "Human 3" VNull "2023-04-01T10:00:05".

(** A row whose last-modified column holds the empty string, and the
    checkpoint derived from it. *)
Definition unstamped : Row := human "1" "Alice" VNull "".

Definition unstamped_checkpoint : SupabaseReplicationCheckpoint :=
  {| modified := VString ""; primaryKeyValue := VString "1" |}.


(** A row whose numeric key, [2 ^ 53 + 1], is no double, the row the
    client decodes from it, and the checkpoint derived from that. *)
Definition beyond_safe : Row :=
  [("id", VNumber 9007199254740993); ("name", VString "Far"); ("age", VNull);
   ("_deleted", VBool false); ("_modified", VString "2023-04-01T10:00:00")].

Definition beyond_safe_decoded : Row :=
  [("id", VNumber 9007199254740992); ("name", VString "Far"); ("age", VNull);
   ("_deleted", VBool false); ("_modified", VString "2023-04-01T10:00:00")].

Definition beyond_safe_checkpoint : SupabaseReplicationCheckpoint :=
  {| modified := VString "2023-04-01T10:00:00";
     primaryKeyValue := VNumber 9007199254740992 |}.

(** Concrete pushes against the [humans] table. *)
Definition alice_aged_5 : Row := human "1" "Alice" (VNumber 5) "2023-04-01T10:00:00".
Definition alice_aged_42 : Row := human "1" "Alice" (VNumber 42) "2023-04-01T10:00:00".

Definition push_assuming_no_age : PushRow :=
  {| newDocumentState := alice_aged_42;
     assumedMasterState := Some [("id", VString "1"); ("age", VNull)] |}.

Definition push_assuming_alice : PushRow :=
  {| newDocumentState := alice_aged_42;
     assumedMasterState := Some alice |}.

(** A replication keyed by a column [uid] the table has no constraint
    on, and a push whose assumed state two rows agree with. *)
Definition by_uid : SupabaseReplication :=
  new_SupabaseReplication
    {| replicationIdentifier := "test";
       collection_name := "humans";
       collection_primaryPath := "uid";
       opt_table := None;
       opt_primaryKey := None;
       opt_deletedField := None;
       pull := None;
       push := Some {| updateHandler := None |};
       opt_live := None;
       opt_autoStart := None |}.

Definition bob1 : Row := [("id", VNumber 1); ("uid", VString "a"); ("name", VString "Bob")].
Definition bob2 : Row := [("id", VNumber 2); ("uid", VString "a"); ("name", VString "Bob")].

Definition push_rename_bob : PushRow :=
  {| newDocumentState := [("uid", VString "a"); ("name", VString "Robert")];
     assumedMasterState := Some [("uid", VString "a"); ("name", VString "Bob")] |}.

Definition robert1 : Row :=
  [("id", VNumber 1); ("uid", VString "a"); ("name", VString "Robert")].
Definition robert2 : Row :=
  [("id", VNumber 2); ("uid", VString "a"); ("name", VString "Robert")].

Definition zed : Row := human "9" "Zed" (VNumber 42) "2023-04-01T11:00:00".


(** A replication that pulls and pushes, keyed by the column [uid], and
    two rows of a table keyed by [id] that share their [uid] and their
    last-modified value. *)
Definition humans_by_uid : SupabaseReplication :=
  new_SupabaseReplication
    {| replicationIdentifier := "test";
       collection_name := "humans";
       collection_primaryPath := "id";
       opt_table := None;
       opt_primaryKey := Some "uid";
       opt_deletedField := None;
       pull := Some {| realtimePostgresChanges := None; lastModifiedField := None |};
       push := Some {| updateHandler := None |};
       opt_live := None;
       opt_autoStart := None |}.

Definition twin1 : Row :=
  [("id", VNumber 1); ("uid", VString "a"); ("_modified", VString "2023-04-01T10:00:00")].
Definition twin2 : Row :=
  [("id", VNumber 2); ("uid", VString "a"); ("_modified", VString "2023-04-01T10:00:00")].

(** Notifications. *)
Definition inserted (r : Row) : Payload := {| eventType := "INSERT"; new := Some r |}.


(** The rows for which a notification makes the relay publish. *)
Definition qualifying (payload : Payload) : list Row :=
  if eventType payload =? "DELETE" then []
  else match new payload with Some r => [r] | None => [] end.

(** A push of a document the remote side has not seen. *)
Definition insertion (doc : Row) : PushRow :=
  {| newDocumentState := doc; assumedMasterState := None |}.

(** ** The conflict handler of the test utilities *)

Module TestUtils.

Record RxConflictHandlerInput : Type := {
  newDocumentState : Row;
  realMasterState : Row
}.

Record RxConflictHandlerOutput : Type := {
  isEqual : bool;
  documentData : Row
}.

(** [{ isEqual: false, documentData: { ...input.newDocumentState, name } }] *)
Definition resolveConflictWithName (name : string) (input : RxConflictHandlerInput)
  : RxConflictHandlerOutput :=
  {| isEqual := false;
     documentData := set (newDocumentState input) "name" (VString name) |}.

End TestUtils.

(** * Properties *)

(** ** The order on values *)

Section ValueOrder.

Lemma string_compare_refl (s : string) : String_as_OT.compare s s = Eq.
Proof.
  destruct (String_as_OT.compare_spec s s) as [_ | H | H]; auto;
    exfalso; exact (StrictOrder_Irreflexive (R := String_as_OT.lt) s H).
Qed.

Lemma string_compare_eq (a b : string) : String_as_OT.compare a b = Eq -> a = b.
Proof.
  intros H. destruct (String_as_OT.compare_spec a b); congruence.
Qed.

Lemma string_compare_antisym (a b : string) :
  String_as_OT.compare b a = CompOpp (String_as_OT.compare a b).
Proof.
  pose proof (StrictOrder_Irreflexive (R := String_as_OT.lt)) as irr.
  pose proof (StrictOrder_Transitive (R := String_as_OT.lt)) as tr.
  destruct (String_as_OT.compare_spec a b) as [E | L | L];
    destruct (String_as_OT.compare_spec b a) as [E' | L' | L'];
    simpl; try reflexivity; exfalso; unfold String_as_OT.eq in *.
  - subst. exact (irr _ L').
  - subst. exact (irr _ L').
  - subst. exact (irr _ L).
  - exact (irr _ (tr _ _ _ L L')).
  - subst. exact (irr _ L).
  - exact (irr _ (tr _ _ _ L L')).
Qed.

Lemma string_compare_trans (a b c : string) :
  String_as_OT.compare a b = Lt -> String_as_OT.compare b c = Lt ->
  String_as_OT.compare a c = Lt.
Proof.
  intros H1 H2.
  exact (StrictOrder_Transitive (R := String_as_OT.lt) a b c H1 H2).
Qed.

Lemma string_compare_empty (s : string) :
  s <> "" -> String_as_OT.compare s "" = Gt.
Proof. destruct s; simpl; congruence. Qed.

Lemma value_compare_refl (v : value) : Js.compare v v = Eq.
Proof.
  destruct v; simpl; auto using string_compare_refl, Z.compare_refl.
  destruct b; reflexivity.
Qed.

Lemma value_compare_eq (a b : value) : Js.compare a b = Eq -> a = b.
Proof.
  destruct a, b; simpl; intros H; try discriminate; auto.
  - destruct b0, b; simpl in H; congruence.
  - apply Z.compare_eq in H. congruence.
  - apply string_compare_eq in H. congruence.
  - apply string_compare_eq in H. congruence.
Qed.

Lemma value_compare_eq_iff (a b : value) : Js.compare a b = Eq <-> a = b.
Proof.
  split; [apply value_compare_eq | intros ->; apply value_compare_refl].
Qed.

Lemma value_compare_antisym (a b : value) :
  Js.compare b a = CompOpp (Js.compare a b).
Proof.
  destruct a, b; simpl; auto using string_compare_antisym, Z.compare_antisym.
  destruct b0, b; reflexivity.
Qed.

Lemma value_compare_trans (a b c : value) :
  Js.compare a b = Lt -> Js.compare b c = Lt -> Js.compare a c = Lt.
Proof.
  destruct a, b, c; simpl; intros H1 H2; try discriminate; auto;
    try (eapply string_compare_trans; eassumption).
  - destruct b0, b1, b; simpl in *; congruence.
  - rewrite Z.compare_lt_iff in *. lia.
Qed.

Lemma value_eqb_eq (a b : value) : value_eqb a b = true <-> a = b.
Proof.
  destruct a, b; simpl; split; intros H; try discriminate; try reflexivity;
    try (inversion H; subst).
  - apply Bool.eqb_prop in H. congruence.
  - apply Bool.eqb_reflx.
  - apply Z.eqb_eq in H. congruence.
  - apply Z.eqb_refl.
  - apply String.eqb_eq in H. congruence.
  - apply String.eqb_refl.
  - apply String.eqb_eq in H. congruence.
  - apply String.eqb_refl.
Qed.

Lemma value_eqb_compare (a b : value) :
  value_eqb a b = match Js.compare a b with Eq => true | _ => false end.
Proof.
  destruct (value_eqb a b) eqn:E.
  - apply value_eqb_eq in E. subst. now rewrite value_compare_refl.
  - destruct (Js.compare a b) eqn:C; auto.
    apply value_compare_eq in C. subst.
    assert (value_eqb b b = true) by now apply value_eqb_eq.
    congruence.
Qed.

End ValueOrder.

(** ** The order on checkpoints and on rows by their key *)

Section KeyOrder.

Variable self : SupabaseReplication.

Lemma checkpoint_compare_refl (a : SupabaseReplicationCheckpoint) :
  checkpoint_compare a a = Eq.
Proof.
  unfold checkpoint_compare. now rewrite !value_compare_refl.
Qed.

Lemma checkpoint_compare_eq (a b : SupabaseReplicationCheckpoint) :
  checkpoint_compare a b = Eq -> a = b.
Proof.
  unfold checkpoint_compare. destruct a as [ma pa], b as [mb pb]; simpl.
  destruct (Js.compare ma mb) eqn:E; try discriminate.
  intros H. apply value_compare_eq in E, H. congruence.
Qed.

Lemma checkpoint_compare_antisym (a b : SupabaseReplicationCheckpoint) :
  checkpoint_compare b a = CompOpp (checkpoint_compare a b).
Proof.
  unfold checkpoint_compare.
  rewrite (value_compare_antisym (modified a) (modified b)).
  rewrite (value_compare_antisym (primaryKeyValue a) (primaryKeyValue b)).
  destruct (Js.compare (modified a) (modified b)); reflexivity.
Qed.

Lemma checkpoint_compare_trans (a b c : SupabaseReplicationCheckpoint) :
  checkpoint_compare a b = Lt -> checkpoint_compare b c = Lt ->
  checkpoint_compare a c = Lt.
Proof.
  unfold checkpoint_compare.
  destruct a as [ma pa], b as [mb pb], c as [mc pc]; simpl.
  destruct (Js.compare ma mb) eqn:E1; try discriminate;
    destruct (Js.compare mb mc) eqn:E2; try discriminate; intros H1 H2.
  - apply value_compare_eq in E1, E2. subst.
    rewrite value_compare_refl. eapply value_compare_trans; eassumption.
  - apply value_compare_eq in E1. subst. now rewrite E2.
  - apply value_compare_eq in E2. subst. now rewrite E1.
  - now rewrite (value_compare_trans _ _ _ E1 E2).
Qed.

Lemma checkpoint_compare_le_trans (a b c : SupabaseReplicationCheckpoint) :
  checkpoint_compare a b <> Gt -> checkpoint_compare b c <> Gt ->
  checkpoint_compare a c <> Gt.
Proof.
  intros H1 H2.
  destruct (checkpoint_compare a b) eqn:E1; try congruence;
    destruct (checkpoint_compare b c) eqn:E2; try congruence.
  - apply checkpoint_compare_eq in E1. subst. congruence.
  - apply checkpoint_compare_eq in E1. subst. congruence.
  - apply checkpoint_compare_eq in E2. subst. congruence.
  - rewrite (checkpoint_compare_trans _ _ _ E1 E2). discriminate.
Qed.

Lemma checkpoint_compare_gt_le (C x y : SupabaseReplicationCheckpoint) :
  checkpoint_compare x C = Gt -> checkpoint_compare x y <> Gt ->
  checkpoint_compare y C = Gt.
Proof.
  intros H1 H2.
  assert (HC : checkpoint_compare C x = Lt).
  { rewrite (checkpoint_compare_antisym x C), H1. reflexivity. }
  destruct (checkpoint_compare x y) eqn:E; try congruence.
  - apply checkpoint_compare_eq in E. now subst.
  - rewrite (checkpoint_compare_antisym C y).
    now rewrite (checkpoint_compare_trans _ _ _ HC E).
Qed.

(** Ordering rows by the key columns is ordering their checkpoints. *)
Lemma order_compare_key (a b : Row) :
  order_compare (key_columns self) a b
  = checkpoint_compare (rowToCheckpoint self a) (rowToCheckpoint self b).
Proof.
  unfold key_columns, checkpoint_compare; simpl.
  destruct (Js.compare (get a (lastModifiedFieldName self))
              (get b (lastModifiedFieldName self))); auto.
  destruct (Js.compare (get a (primaryKey self)) (get b (primaryKey self))); auto.
Qed.

Lemma after_checkpoint_compare (C : SupabaseReplicationCheckpoint) (r : Row) :
  after_checkpoint self C r
  = match checkpoint_compare (rowToCheckpoint self r) C with
    | Gt => true
    | _ => false
    end.
Proof.
  unfold after_checkpoint, checkpoint_compare; simpl.
  destruct (Js.compare (get r (lastModifiedFieldName self)) (modified C)); auto.
Qed.

Lemma key_leb_trans (a b c : Row) :
  order_leb (key_columns self) a b = true ->
  order_leb (key_columns self) b c = true ->
  order_leb (key_columns self) a c = true.
Proof.
  unfold order_leb. rewrite !order_compare_key. intros H1 H2.
  pose proof (checkpoint_compare_le_trans
                (rowToCheckpoint self a) (rowToCheckpoint self b)
                (rowToCheckpoint self c)) as T.
  destruct (checkpoint_compare (rowToCheckpoint self a) (rowToCheckpoint self b));
    try discriminate;
    destruct (checkpoint_compare (rowToCheckpoint self b) (rowToCheckpoint self c));
    try discriminate;
    destruct (checkpoint_compare (rowToCheckpoint self a) (rowToCheckpoint self c));
    auto; exfalso; apply T; congruence.
Qed.

Lemma key_leb_total (a b : Row) :
  order_leb (key_columns self) a b = false ->
  order_leb (key_columns self) b a = true.
Proof.
  unfold order_leb. rewrite !order_compare_key.
  rewrite (checkpoint_compare_antisym (rowToCheckpoint self a) (rowToCheckpoint self b)).
  destruct (checkpoint_compare (rowToCheckpoint self a) (rowToCheckpoint self b));
    simpl; congruence.
Qed.

Lemma key_le_leb (a b : Row) :
  key_le self a b <-> order_leb (key_columns self) a b = true.
Proof.
  unfold key_le, order_leb.
  destruct (order_compare (key_columns self) a b); split; congruence.
Qed.

End KeyOrder.

(** ** Sorting by insertion *)

Section Sorting.

Variable cols : list string.

Hypothesis leb_trans :
  forall a b c, leb_on cols a b -> leb_on cols b c -> leb_on cols a c.
Hypothesis leb_total :
  forall a b, order_leb cols a b = false -> leb_on cols b a.

Lemma insert_sorted_perm (x : Row) (l : list Row) :
  Permutation (insert_sorted cols x l) (x :: l).
Proof.
  induction l as [| y l IH]; simpl; auto.
  destruct (order_leb cols x y); auto.
  rewrite IH. apply perm_swap.
Qed.

Lemma sort_by_perm (l : list Row) : Permutation (sort_by cols l) l.
Proof.
  induction l as [| x l IH]; simpl; auto.
  rewrite insert_sorted_perm. now constructor.
Qed.

Lemma insert_sorted_sorted (x : Row) (l : list Row) :
  StronglySorted (leb_on cols) l -> StronglySorted (leb_on cols) (insert_sorted cols x l).
Proof.
  induction 1 as [| y l Hs IH Hall]; simpl.
  - repeat constructor.
  - destruct (order_leb cols x y) eqn:E.
    + constructor; [constructor; assumption |].
      constructor; [exact E |].
      eapply Forall_impl; [| exact Hall]. intros z Hz. eapply leb_trans; eauto.
    + constructor; [assumption |].
      eapply Permutation_Forall; [symmetry; apply insert_sorted_perm |].
      constructor; [now apply leb_total | assumption].
Qed.

Lemma sort_by_sorted (l : list Row) : StronglySorted (leb_on cols) (sort_by cols l).
Proof.
  induction l; simpl; [constructor | now apply insert_sorted_sorted].
Qed.

Lemma insert_sorted_head (x : Row) (l : list Row) :
  Forall (leb_on cols x) l -> insert_sorted cols x l = x :: l.
Proof.
  destruct 1 as [| y l H _]; simpl; auto. unfold leb_on in H. now rewrite H.
Qed.

Lemma filter_insert_sorted (p : Row -> bool) (x : Row) (l : list Row) :
  StronglySorted (leb_on cols) l ->
  filter p (insert_sorted cols x l)
  = if p x then insert_sorted cols x (filter p l) else filter p l.
Proof.
  induction 1 as [| y l Hs IH Hall]; simpl.
  - destruct (p x); reflexivity.
  - destruct (order_leb cols x y) eqn:E; simpl.
    + destruct (p x) eqn:Px; auto.
      destruct (p y) eqn:Py; simpl.
      * now rewrite E.
      * symmetry. f_equal. apply insert_sorted_head.
        apply Forall_forall. intros z Hz. apply filter_In in Hz as [Hz _].
        rewrite Forall_forall in Hall. eapply leb_trans; [exact E | auto].
    + rewrite IH. destruct (p y) eqn:Py; destruct (p x) eqn:Px; simpl; auto.
      now rewrite E.
Qed.

(** Selecting rows and ordering them commute. *)
Lemma filter_sort_by (p : Row -> bool) (l : list Row) :
  filter p (sort_by cols l) = sort_by cols (filter p l).
Proof.
  induction l as [| x l IH]; simpl; auto.
  rewrite filter_insert_sorted by apply sort_by_sorted.
  rewrite IH. destruct (p x); reflexivity.
Qed.

End Sorting.

Lemma sort_by_unordered (l : list Row) : sort_by [] l = l.
Proof.
  induction l as [| x l IH]; simpl; auto. rewrite IH. destruct l; reflexivity.
Qed.

(** ** Requests against a remote side that answers *)

(** The three ways the next request can go: no fault is planned, the
    request is failed with an error, or it is let through. *)
Ltac next_request st :=
  unfold next_fault; destruct (faults st) as [| [?e |] ?fs]; simpl.

Section Requests.

Variable self : SupabaseReplication.

Lemma reliable_answers (st : remote) : reliable st -> answers st.
Proof.
  unfold reliable, answers, next_fault. destruct (faults st); simpl; auto.
  now inversion 1.
Qed.

Lemma reliable_after_request (st : remote) : reliable st -> reliable (after_request st).
Proof.
  unfold reliable, after_request, next_fault. destruct (faults st) eqn:E; simpl.
  - now rewrite E.
  - now inversion 1.
Qed.

Lemma rows_after_request (st : remote) : rows (after_request st) = rows st.
Proof.
  unfold after_request, next_fault. destruct (faults st); reflexivity.
Qed.

Lemma pkey_after_request (st : remote) : pkey (after_request st) = pkey st.
Proof.
  unfold after_request, next_fault. destruct (faults st); reflexivity.
Qed.

Lemma run_select_answers (q : select_query) (st : remote) :
  answers st ->
  run_select q st = (reply_rows (select_rows q (rows st)), after_request st).
Proof.
  unfold answers, run_select, after_request. intros H.
  destruct (next_fault st) as [f st'] eqn:E. simpl in *. subst f.
  replace (rows st') with (rows st); auto.
  unfold next_fault in E. destruct (faults st); inversion E; reflexivity.
Qed.

Lemma nth_last_row (l : list Row) : nth (length l - 1) l [] = last l [].
Proof.
  induction l as [| x l IH]; simpl; auto.
  destruct l as [| y l]; auto.
  simpl in *. now rewrite Nat.sub_0_r in IH.
Qed.

Lemma map_rowToRxDoc (l : list Row) : map (rowToRxDoc self) l = l.
Proof. unfold rowToRxDoc. apply map_id. Qed.

(** [pullHandler] in terms of the reply to its request. *)
Lemma pullHandler_reply (lc : option SupabaseReplicationCheckpoint) (n : nat)
  (st : remote) :
  pullHandler self lc n st
  = match error (fst (run_select (pull_query self lc n) st)) with
    | Some e => (Threw (PgError e), snd (run_select (pull_query self lc n) st))
    | None =>
        (Returned (pull_event self lc (data (fst (run_select (pull_query self lc n) st)))),
         snd (run_select (pull_query self lc n) st))
    end.
Proof.
  unfold pullHandler, bind, await_select.
  destruct (run_select (pull_query self lc n) st) as [r st']; simpl.
  destruct (error r); auto.
  destruct (data r) as [| x l] eqn:D; [reflexivity |].
  change ((length (x :: l) =? 0)%nat) with false. cbv beta iota.
  unfold ret, pull_event. now rewrite map_rowToRxDoc, nth_last_row.
Qed.

Lemma holds_pull_condition (C : SupabaseReplicationCheckpoint) (r : Row) :
  holds
    (COr (CGt (lastModifiedFieldName self) (modified C))
       (CAnd (CEq (lastModifiedFieldName self) (modified C))
          (CGt (primaryKey self) (primaryKeyValue C)))) r
  = after_checkpoint self C r.
Proof.
  unfold after_checkpoint; simpl. rewrite value_eqb_compare.
  destruct (Js.compare (get r (lastModifiedFieldName self)) (modified C)); auto.
Qed.

Lemma selects_spec (lc : option SupabaseReplicationCheckpoint) (r : Row) :
  selects self lc r
  = match lc with
    | Some C => if truthy (modified C) then after_checkpoint self C r else true
    | None => true
    end.
Proof.
  unfold selects, pull_query. destruct lc as [C |]; simpl; auto.
  destruct (truthy (modified C)); simpl; auto.
  rewrite <- holds_pull_condition. simpl. now rewrite andb_true_r.
Qed.

Lemma pull_query_rows (lc : option SupabaseReplicationCheckpoint) (n : nat)
  (tbl : list Row) :
  select_rows (pull_query self lc n) tbl
  = firstn n (sort_by (key_columns self) (filter (selects self lc) tbl)).
Proof.
  unfold select_rows, selects, pull_query, key_columns.
  destruct lc as [C |]; simpl; auto.
  destruct (truthy (modified C)); reflexivity.
Qed.

Lemma pullHandler_answers (lc : option SupabaseReplicationCheckpoint) (n : nat)
  (st : remote) :
  answers st ->
  pullHandler self lc n st
  = (Returned (pull_event self lc (pulled self lc n (rows st))), after_request st).
Proof.
  intros H. rewrite pullHandler_reply, run_select_answers by assumption.
  simpl. now rewrite pull_query_rows.
Qed.

End Requests.

(** ** One pull *)

Section Pull.

Variable self : SupabaseReplication.

Lemma documents_pull_event (lc : option SupabaseReplicationCheckpoint)
  (batch : list Row) :
  documents (pull_event self lc batch) = batch.
Proof. destruct batch; reflexivity. Qed.

Lemma StronglySorted_weaken (R R' : Row -> Row -> Prop) (l : list Row) :
  (forall a b, R a b -> R' a b) -> StronglySorted R l -> StronglySorted R' l.
Proof.
  intros HR. induction 1 as [| x l Hs IH Hall]; constructor; auto.
  eapply Forall_impl; [| exact Hall]. auto.
Qed.

Lemma sort_by_key_sorted (l : list Row) :
  StronglySorted (key_le self) (sort_by (key_columns self) l).
Proof.
  eapply StronglySorted_weaken;
    [| apply sort_by_sorted; [apply key_leb_trans | apply key_leb_total]].
  intros a b H. now apply key_le_leb.
Qed.

Lemma first_in_order_pulled (lc : option SupabaseReplicationCheckpoint)
  (n : nat) (p : Row -> bool) (tbl : list Row) :
  (forall r, selects self lc r = p r) ->
  first_in_order self n p tbl (pulled self lc n tbl).
Proof.
  intros Hp. unfold first_in_order, pulled.
  rewrite (filter_ext _ _ Hp).
  exists (skipn n (sort_by (key_columns self) (filter p tbl))).
  rewrite firstn_skipn. repeat split.
  - apply sort_by_perm.
  - apply sort_by_key_sorted.
  - rewrite length_firstn. f_equal. apply Permutation_length, sort_by_perm.
Qed.

Lemma selects_beyond (lc : option SupabaseReplicationCheckpoint) (r : Row) :
  (forall C, lc = Some C -> truthy (modified C) = true) ->
  selects self lc r = beyond self lc r.
Proof.
  intros H. rewrite selects_spec. destruct lc as [C |]; simpl; auto.
  now rewrite (H C eq_refl).
Qed.

Lemma selects_all (lc : option SupabaseReplicationCheckpoint) (r : Row) :
  (forall C, lc = Some C -> truthy (modified C) = false) ->
  selects self lc r = true.
Proof.
  intros H. rewrite selects_spec. destruct lc as [C |]; simpl; auto.
  now rewrite (H C eq_refl).
Qed.

End Pull.

(** C1, as the code has it.  A pull whose request goes through returns,
    for a checkpoint that is absent or has a truthy [modified], the
    first [batchSize] rows in ascending [(modified, primaryKey)] order
    among the rows after the checkpoint (all rows when it is absent);
    for a present checkpoint whose [modified] is falsy it applies no
    filter and returns the first [batchSize] rows of the whole table. *)
Theorem pull_first_batch (self : SupabaseReplication)
  (lastCheckpoint : option SupabaseReplicationCheckpoint) (batchSize : nat)
  (st : remote) :
  answers st ->
  exists ev,
    pullHandler self lastCheckpoint batchSize st = (Returned ev, after_request st)
    /\ ((forall C, lastCheckpoint = Some C -> truthy (modified C) = true) ->
        first_in_order self batchSize (beyond self lastCheckpoint) (rows st)
          (documents ev))
    /\ ((forall C, lastCheckpoint = Some C -> truthy (modified C) = false) ->
        first_in_order self batchSize (fun _ => true) (rows st) (documents ev)).
Proof.
  intros Hst. eexists. split; [apply pullHandler_answers; assumption |].
  rewrite documents_pull_event. split; intros H.
  - apply first_in_order_pulled. intros r. now apply selects_beyond.
  - apply first_in_order_pulled. intros r. now apply selects_all.
Qed.

Lemma pull_first_batch_witness :
  answers (remote_of [human3; alice; human2])
  /\ exists ev,
      pullHandler humans (Some (rowToCheckpoint humans alice)) 1
        (remote_of [human3; alice; human2])
      = (Returned ev, after_request (remote_of [human3; alice; human2]))
      /\ first_in_order humans 1
           (beyond humans (Some (rowToCheckpoint humans alice)))
           [human3; alice; human2] (documents ev).
Proof.
  split; [reflexivity |].
  destruct (pull_first_batch humans (Some (rowToCheckpoint humans alice)) 1
              (remote_of [human3; alice; human2]) eq_refl) as [ev [H1 [H2 _]]].
  exists ev. split; [exact H1 |].
  apply H2. intros C HC. inversion HC; subst. reflexivity.
Defined.

(** C1 as stated fails for a present checkpoint whose [modified] is the
    empty string: the row at the checkpoint itself is not after it, yet
    the pull returns it. *)
Lemma pull_present_checkpoint_unfiltered :
  pullHandler humans (Some unstamped_checkpoint) 10 (remote_of [unstamped])
  = (Returned {| checkpoint := Some unstamped_checkpoint; documents := [unstamped] |},
     remote_of [unstamped])
  /\ filter (beyond humans (Some unstamped_checkpoint)) [unstamped] = []
  /\ ~ first_in_order humans 10 (beyond humans (Some unstamped_checkpoint))
         [unstamped] [unstamped].
Proof.
  split; [reflexivity |]. split; [reflexivity |].
  intros [rest [_ [_ H]]]. discriminate H.
Qed.

Lemma in_firstn (n : nat) (l : list Row) (r : Row) :
  In r (firstn n l) -> In r l.
Proof.
  intros H. rewrite <- (firstn_skipn n l). apply in_or_app. now left.
Qed.

Lemma select_rows_in (q : select_query) (tbl : list Row) (r : Row) :
  In r (select_rows q tbl) -> In r tbl.
Proof.
  unfold select_rows, apply_limit. intros H.
  assert (H' : In r (sort_by (sel_order q) (filter (matches (sel_filters q)) tbl))).
  { destruct (sel_limit q); [eapply in_firstn; eassumption | assumption]. }
  eapply Permutation_in in H'; [| apply sort_by_perm].
  now apply filter_In in H'.
Qed.

Lemma run_select_rows (q : select_query) (st : remote) (r : Row) :
  In r (data (fst (run_select q st))) -> In r (rows st).
Proof.
  unfold run_select. next_request st; try contradiction;
    apply select_rows_in.
Qed.

Lemma sorted_last_greatest (self : SupabaseReplication) (front : list Row)
  (lastRow : Row) :
  StronglySorted (key_le self) (front ++ [lastRow]) ->
  Forall (fun d => key_le self d lastRow) (front ++ [lastRow]).
Proof.
  induction front as [| x front IH]; simpl; intros H.
  - constructor; [| constructor]. unfold key_le.
    rewrite order_compare_key, checkpoint_compare_refl. discriminate.
  - inversion H as [| ? ? Hs Hall]; subst. constructor; auto.
    rewrite Forall_forall in Hall. apply Hall, in_elt.
Qed.

Lemma firstn_sorted (self : SupabaseReplication) (n : nat) (l : list Row) :
  StronglySorted (key_le self) l -> StronglySorted (key_le self) (firstn n l).
Proof.
  intros H. revert n. induction H as [| x l Hs IH Hall]; intros [| n]; simpl;
    try constructor; auto.
  rewrite Forall_forall in *. intros y Hy. apply Hall. eapply in_firstn; eauto.
Qed.

Lemma run_select_pull_sorted (self : SupabaseReplication)
  (lc : option SupabaseReplicationCheckpoint) (n : nat) (st : remote) :
  StronglySorted (key_le self) (data (fst (run_select (pull_query self lc n) st))).
Proof.
  unfold run_select. next_request st; try constructor;
    rewrite pull_query_rows; apply firstn_sorted, sort_by_key_sorted.
Qed.

(** C3.  When the request of a pull is answered without an error: with
    zero rows the result is the unchanged [lastCheckpoint] and no
    documents, returned and not thrown; with rows, the documents are
    exactly the rows of the reply, rows of the table as they are (so
    each with its soft-delete column), and the checkpoint is the
    [modified] and primary key of the last row, which no row of the
    batch exceeds in [(modified, primaryKey)] order. *)
Theorem pull_result_shape (self : SupabaseReplication)
  (lastCheckpoint : option SupabaseReplicationCheckpoint) (batchSize : nat)
  (st : remote) :
  let reply := fst (run_select (pull_query self lastCheckpoint batchSize) st) in
  let st' := snd (run_select (pull_query self lastCheckpoint batchSize) st) in
  error reply = None ->
  (data reply = [] ->
   pullHandler self lastCheckpoint batchSize st
   = (Returned {| checkpoint := lastCheckpoint; documents := [] |}, st'))
  /\ (forall front lastRow,
        data reply = front ++ [lastRow] ->
        pullHandler self lastCheckpoint batchSize st
        = (Returned
             {| checkpoint :=
                  Some {| modified := get lastRow (lastModifiedFieldName self);
                          primaryKeyValue := get lastRow (primaryKey self) |};
                documents := data reply |}, st')
        /\ Forall (fun d => key_le self d lastRow) (data reply)
        /\ Forall (fun d => In d (rows st)
                            /\ get (rowToRxDoc self d) (deletedField self)
                               = get d (deletedField self)) (data reply)).
Proof.
  intros reply st' Herr. rewrite pullHandler_reply.
  fold reply st'. rewrite Herr. split.
  - intros D. now rewrite D.
  - intros front lastRow D. split; [| split].
    + rewrite D. unfold pull_event.
      destruct (front ++ [lastRow]) eqn:E; [now destruct front |].
      rewrite <- E, last_last. reflexivity.
    + rewrite D. apply sorted_last_greatest. rewrite <- D.
      apply run_select_pull_sorted.
    + apply Forall_forall. intros d Hd. split; [| reflexivity].
      eapply run_select_rows. exact Hd.
Qed.

Lemma pull_result_shape_witness :
  error (fst (run_select (pull_query humans None 2)
                (remote_of [human3; alice; human2]))) = None
  /\ pullHandler humans None 2 (remote_of [human3; alice; human2])
     = (Returned
          {| checkpoint :=
               Some {| modified := VString "2023-04-01T10:00:05";
                       primaryKeyValue := VString "2" |};
             documents := [alice; human2] |},
        remote_of [human3; alice; human2]).
Proof.
  split; [reflexivity |].
  exact (proj1 (proj2 (pull_result_shape humans None 2
                         (remote_of [human3; alice; human2]) eq_refl)
                  [alice] human2 eq_refl)).
Defined.

(** C10.  A pull whose checkpoint is present with a falsy [modified]
    (the empty string, null, 0, ...) builds the very request of a pull
    without a checkpoint, with no filter in it; it gets the same reply,
    hence the same documents or the same error, and when the request
    goes through the documents are the first [batchSize] rows of the
    whole table in [(modified, primaryKey)] order. *)
Theorem pull_falsy_checkpoint_is_initial_sync (self : SupabaseReplication)
  (C : SupabaseReplicationCheckpoint) (batchSize : nat) (st : remote) :
  truthy (modified C) = false ->
  pull_query self (Some C) batchSize = pull_query self None batchSize
  /\ sel_filters (pull_query self (Some C) batchSize) = []
  /\ match pullHandler self (Some C) batchSize st,
           pullHandler self None batchSize st with
     | (Returned a, s1), (Returned b, s2) => documents a = documents b /\ s1 = s2
     | (Threw e1, s1), (Threw e2, s2) => e1 = e2 /\ s1 = s2
     | _, _ => False
     end
  /\ (answers st ->
      exists ev,
        pullHandler self (Some C) batchSize st = (Returned ev, after_request st)
        /\ first_in_order self batchSize (fun _ => true) (rows st) (documents ev)).
Proof.
  intros HC.
  assert (Q : pull_query self (Some C) batchSize = pull_query self None batchSize).
  { unfold pull_query. now rewrite HC. }
  split; [exact Q |]. split; [| split].
  - rewrite Q. reflexivity.
  - rewrite !pullHandler_reply, Q.
    destruct (error (fst (run_select (pull_query self None batchSize) st)));
      [auto |].
    now rewrite !documents_pull_event.
  - intros Hst. eexists. split; [now apply pullHandler_answers |].
    rewrite documents_pull_event. apply first_in_order_pulled.
    intros r. apply selects_all. intros C' E. inversion E; subst. exact HC.
Qed.

Lemma pull_falsy_checkpoint_is_initial_sync_witness :
  truthy (modified {| modified := VNull; primaryKeyValue := VString "2" |}) = false
  /\ pull_query humans
       (Some {| modified := VNull; primaryKeyValue := VString "2" |}) 2
     = pull_query humans None 2
  /\ fst (pullHandler humans
            (Some {| modified := VNull; primaryKeyValue := VString "2" |}) 2
            (remote_of [human3; alice; human2]))
     = Returned
         {| checkpoint :=
              Some {| modified := VString "2023-04-01T10:00:05";
                      primaryKeyValue := VString "2" |};
            documents := [alice; human2] |}.
Proof.
  split; [reflexivity |].
  split; [| reflexivity].
  exact (proj1 (pull_falsy_checkpoint_is_initial_sync humans
                  {| modified := VNull; primaryKeyValue := VString "2" |} 2
                  (remote_of [human3; alice; human2]) eq_refl)).
Defined.

(** ** The pull as the client receives it *)

Section Received.

Variable self : SupabaseReplication.

Lemma toDouble_safe (z : Z) : isSafeInteger z = true -> toDouble z = z.
Proof.
  unfold isSafeInteger, MAX_SAFE_INTEGER, toDouble. intros H.
  apply Z.leb_le in H.
  destruct (Z.leb_spec (Z.abs z) (2 ^ 53)) as [_ | Hgt]; [reflexivity |].
  exfalso. lia.
Qed.

Lemma decode_safe (v : value) : safe_value v = true -> decode v = v.
Proof.
  destruct v; simpl; auto. intros H. now rewrite toDouble_safe.
Qed.

Lemma decode_row_safe (r : Row) : safe_row r = true -> decode_row r = r.
Proof.
  unfold safe_row, decode_row. induction r as [| [k v] r IH]; simpl; auto.
  intros H. apply andb_true_iff in H as [Hv Hr].
  now rewrite decode_safe, IH.
Qed.

Lemma decode_rows_safe (tbl l : list Row) :
  safe_numbers tbl -> (forall r, In r l -> In r tbl) -> map decode_row l = l.
Proof.
  unfold safe_numbers. rewrite Forall_forall. intros Hs Hin.
  rewrite <- (map_id l) at 2. apply map_ext_in.
  intros r Hr. apply decode_row_safe. auto.
Qed.

Lemma get_decode_row (r : Row) (field : string) :
  get (decode_row r) field = decode (get r field).
Proof.
  induction r as [| [k v] r IH]; simpl; auto.
  destruct (k =? field); auto.
Qed.

(** On a table of safe numbers the caller receives what [pullHandler]
    computes on the rows as the store holds them. *)
Lemma pull_received_safe (lc : option SupabaseReplicationCheckpoint) (n : nat)
  (st : remote) :
  safe_numbers (rows st) ->
  pull_received self lc n st = pullHandler self lc n st.
Proof.
  intros Hs. unfold pull_received, bind. rewrite pullHandler_reply.
  destruct (error (fst (run_select (pull_query self lc n) st))); auto.
  unfold ret. rewrite documents_pull_event.
  rewrite (decode_rows_safe (rows st)); auto.
  intros r. apply run_select_rows.
Qed.

Lemma pull_received_answers (lc : option SupabaseReplicationCheckpoint) (n : nat)
  (st : remote) :
  answers st ->
  safe_numbers (rows st) ->
  pull_received self lc n st
  = (Returned (pull_event self lc (pulled self lc n (rows st))), after_request st).
Proof.
  intros Ha Hs. rewrite pull_received_safe by assumption.
  now apply pullHandler_answers.
Qed.

End Received.

(** ** Successive pulls: the checkpoints *)

Section Checkpoints.

Variable self : SupabaseReplication.



Lemma pulled_in (lc : option SupabaseReplicationCheckpoint) (n : nat)
  (tbl : list Row) (r : Row) :
  In r (pulled self lc n tbl) -> In r tbl /\ selects self lc r = true.
Proof.
  unfold pulled. intros H. apply in_firstn in H.
  eapply Permutation_in in H; [| apply sort_by_perm].
  now apply filter_In in H.
Qed.
















End Checkpoints.




(** ** Successive pulls: the documents *)

Section PullLoop.

Variable self : SupabaseReplication.

Lemma key_lt_of_le (l : list Row) :
  StronglySorted (key_le self) l -> distinct_keys self l ->
  StronglySorted (key_lt self) l.
Proof.
  unfold distinct_keys.
  induction 1 as [| x l Hs IH Hall]; simpl; intros Hnd; constructor.
  - apply IH. now inversion Hnd.
  - inversion Hnd as [| ? ? Hx _]; subst.
    rewrite Forall_forall in *. intros y Hy. specialize (Hall y Hy).
    unfold key_le, key_lt in *. rewrite order_compare_key in *.
    destruct (checkpoint_compare (rowToCheckpoint self x) (rowToCheckpoint self y))
      eqn:E; try congruence.
    apply checkpoint_compare_eq in E. exfalso. apply Hx. rewrite E.
    now apply in_map.
Qed.

Lemma sort_by_key_strict (tbl : list Row) :
  distinct_keys self tbl ->
  StronglySorted (key_lt self) (sort_by (key_columns self) tbl).
Proof.
  intros H. apply key_lt_of_le; [apply sort_by_key_sorted |].
  unfold distinct_keys in *.
  eapply Permutation_NoDup; [| exact H].
  apply Permutation_map. symmetry. apply sort_by_perm.
Qed.

Lemma sorted_around (R : Row -> Row -> Prop) (P Q : list Row) (x : Row) :
  StronglySorted R (P ++ x :: Q) ->
  Forall (fun r => R r x) P /\ Forall (R x) Q.
Proof.
  induction P as [| y P IH]; simpl; intros H; inversion H as [| ? ? Hs Hall]; subst.
  - split; [constructor | assumption].
  - destruct (IH Hs) as [H1 H2]. split; [| assumption].
    constructor; [| assumption].
    rewrite Forall_forall in Hall. apply Hall, in_elt.
Qed.

Lemma filter_none (p : Row -> bool) (l : list Row) :
  (forall r, In r l -> p r = false) -> filter p l = [].
Proof.
  induction l as [| x l IH]; simpl; intros H; auto.
  rewrite (H x) by now left. apply IH. intros r Hr. apply H. now right.
Qed.

Lemma filter_all (p : Row -> bool) (l : list Row) :
  (forall r, In r l -> p r = true) -> filter p l = l.
Proof.
  induction l as [| x l IH]; simpl; intros H; auto.
  rewrite (H x) by now left. f_equal. apply IH. intros r Hr. apply H. now right.
Qed.

(** What a pull delivers when the ordered table splits into the rows
    its request rejects, followed by the rows it selects. *)
Lemma pulled_split (lc : option SupabaseReplicationCheckpoint) (n : nat)
  (tbl seen ahead : list Row) :
  sort_by (key_columns self) tbl = seen ++ ahead ->
  (forall r, In r seen -> selects self lc r = false) ->
  (forall r, In r ahead -> selects self lc r = true) ->
  pulled self lc n tbl = firstn n ahead.
Proof.
  intros HT HA HS. unfold pulled.
  rewrite <- filter_sort_by by (apply key_leb_trans || apply key_leb_total).
  rewrite HT, filter_app, (filter_none _ _ HA), (filter_all _ _ HS).
  reflexivity.
Qed.

(** After a batch ending in row [L], the request from the checkpoint of
    [L] rejects the rows up to [L] and selects the rows behind it. *)
Lemma selects_around (P Q : list Row) (L : Row) :
  StronglySorted (key_lt self) (P ++ L :: Q) ->
  truthy (get L (lastModifiedFieldName self)) = true ->
  (forall r, In r (P ++ [L]) ->
             selects self (Some (rowToCheckpoint self L)) r = false)
  /\ (forall r, In r Q ->
                selects self (Some (rowToCheckpoint self L)) r = true).
Proof.
  intros Hs HT. destruct (sorted_around _ _ _ _ Hs) as [HP HQ].
  rewrite Forall_forall in HP, HQ.
  assert (Hsel : forall r,
             selects self (Some (rowToCheckpoint self L)) r
             = match order_compare (key_columns self) r L with
               | Gt => true
               | _ => false
               end).
  { intros r. rewrite selects_spec.
    change (modified (rowToCheckpoint self L))
      with (get L (lastModifiedFieldName self)).
    now rewrite HT, after_checkpoint_compare, order_compare_key. }
  split; intros r Hr; rewrite Hsel.
  - apply in_app_or in Hr as [Hr | [<- | []]].
    + specialize (HP r Hr). unfold key_lt in HP. now rewrite HP.
    + now rewrite order_compare_key, checkpoint_compare_refl.
  - specialize (HQ r Hr). unfold key_lt in HQ.
    rewrite order_compare_key in *.
    rewrite (checkpoint_compare_antisym (rowToCheckpoint self L)
               (rowToCheckpoint self r)), HQ.
    reflexivity.
Qed.

Lemma pullUntilEmpty_step (fuel : nat) (lc : option SupabaseReplicationCheckpoint)
  (n : nat) (st : remote) :
  answers st ->
  safe_numbers (rows st) ->
  pullUntilEmpty (S fuel) self lc n st
  = match pulled self lc n (rows st) with
    | [] => Some []
    | docs =>
        match pullUntilEmpty fuel self
                (Some (rowToCheckpoint self (last docs []))) n (after_request st) with
        | Some rest => Some (docs ++ rest)
        | None => None
        end
    end.
Proof.
  intros H Hs. simpl. rewrite pull_received_answers by assumption.
  destruct (pulled self lc n (rows st)); reflexivity.
Qed.

Lemma pull_loop (n : nat) :
  0 < n ->
  forall fuel ahead seen lc st,
    reliable st ->
    safe_numbers (rows st) ->
    stamped self (rows st) ->
    sort_by (key_columns self) (rows st) = seen ++ ahead ->
    StronglySorted (key_lt self) (seen ++ ahead) ->
    (forall r, In r seen -> selects self lc r = false) ->
    (forall r, In r ahead -> selects self lc r = true) ->
    length ahead < fuel ->
    pullUntilEmpty fuel self lc n st = Some ahead.
Proof.
  intros Hn. induction fuel as [| fuel IH];
    intros ahead seen lc st Hst Hsafe Hstamp HT Hs HA HS Hfuel;
    [inversion Hfuel |].
  rewrite pullUntilEmpty_step by (assumption || now apply reliable_answers).
  rewrite (pulled_split lc n (rows st) seen ahead HT HA HS).
  destruct ahead as [| x ahead]; [now rewrite firstn_nil |].
  destruct n as [| n]; [inversion Hn |].
  destruct (firstn (S n) (x :: ahead)) as [| b bs] eqn:Hb;
    [discriminate |].
  destruct (@exists_last _ (b :: bs)) as [front [L HL]]; [discriminate |].
  assert (Hsplit : x :: ahead = (front ++ [L]) ++ skipn (S n) (x :: ahead)).
  { rewrite <- HL, <- Hb. symmetry. apply firstn_skipn. }
  assert (HLin : In L (rows st)).
  { eapply Permutation_in; [apply sort_by_perm |]. rewrite HT.
    apply in_or_app. right. rewrite Hsplit. apply in_or_app. left. apply in_elt. }
  assert (HLT : truthy (get L (lastModifiedFieldName self)) = true).
  { unfold stamped in Hstamp. rewrite Forall_forall in Hstamp. auto. }
  assert (Hs' : StronglySorted (key_lt self)
                  ((seen ++ front) ++ L :: skipn (S n) (x :: ahead))).
  { rewrite <- app_assoc.
    replace (front ++ L :: skipn (S n) (x :: ahead))
      with ((front ++ [L]) ++ skipn (S n) (x :: ahead))
      by (rewrite <- app_assoc; reflexivity).
    now rewrite <- Hsplit. }
  destruct (selects_around _ _ _ Hs' HLT) as [HA' HS'].
  cbv zeta.
  rewrite (IH (skipn (S n) (x :: ahead)) ((seen ++ front) ++ [L])
             (Some (rowToCheckpoint self (last (b :: bs) []))) (after_request st)).
  - rewrite <- Hb. now rewrite firstn_skipn.
  - now apply reliable_after_request.
  - now rewrite rows_after_request.
  - now rewrite rows_after_request.
  - rewrite rows_after_request, HT. rewrite <- !app_assoc. f_equal.
    rewrite app_assoc. exact Hsplit.
  - rewrite <- app_assoc. exact Hs'.
  - rewrite HL, last_last. exact HA'.
  - rewrite HL, last_last. exact HS'.
  - rewrite length_skipn. simpl in *. lia.
Qed.

(** An ordered list splits along a predicate that, once true, stays
    true further up. *)
Lemma sorted_split (p : Row -> bool) (l : list Row) :
  StronglySorted (key_le self) l ->
  (forall a b, key_le self a b -> p a = true -> p b = true) ->
  l = filter (fun r => negb (p r)) l ++ filter p l.
Proof.
  intros Hs Hmono. induction Hs as [| x l Hs IH Hall]; simpl; auto.
  destruct (p x) eqn:Px; simpl.
  - rewrite Forall_forall in Hall.
    rewrite filter_none, filter_all; auto.
    + intros r Hr. eapply Hmono; eauto.
    + intros r Hr. rewrite (Hmono x r); auto.
  - now rewrite <- IH.
Qed.

Lemma selects_monotone (lc : option SupabaseReplicationCheckpoint) (a b : Row) :
  key_le self a b -> selects self lc a = true -> selects self lc b = true.
Proof.
  rewrite !selects_spec. destruct lc as [C |]; auto.
  destruct (truthy (modified C)); auto.
  rewrite !after_checkpoint_compare. unfold key_le. rewrite order_compare_key.
  intros Hab Ha.
  rewrite (checkpoint_compare_gt_le C (rowToCheckpoint self a)); auto.
  destruct (checkpoint_compare (rowToCheckpoint self a) C); congruence.
Qed.

(** The loop delivers, in order, the rows its first request selects. *)
Lemma pull_loop_from (n fuel : nat) (lc : option SupabaseReplicationCheckpoint)
  (st : remote) :
  0 < n ->
  reliable st ->
  safe_numbers (rows st) ->
  stamped self (rows st) ->
  distinct_keys self (rows st) ->
  length (rows st) < fuel ->
  pullUntilEmpty fuel self lc n st
  = Some (sort_by (key_columns self) (filter (selects self lc) (rows st))).
Proof.
  intros Hn Hst Hsafe Hstamp Hd Hfuel.
  rewrite <- filter_sort_by by (apply key_leb_trans || apply key_leb_total).
  pose proof (sorted_split (selects self lc) _
                (sort_by_key_sorted self (rows st)) (selects_monotone lc)) as HT.
  eapply (pull_loop n Hn fuel _ _ lc st Hst Hsafe Hstamp HT).
  - rewrite <- HT. now apply sort_by_key_strict.
  - intros r Hr. apply filter_In in Hr as [_ Hr]. now apply negb_true_iff.
  - intros r Hr. now apply filter_In in Hr.
  - eapply Nat.le_lt_trans; [apply filter_length_le |].
    now rewrite (Permutation_length (sort_by_perm _ _)).
Qed.

Lemma stamped_of_timestamped (tbl : list Row) :
  timestamped self tbl -> stamped self tbl.
Proof.
  unfold timestamped, stamped. apply Forall_impl.
  intros r [s [-> Hs]]. simpl. destruct (String.eqb_spec s ""); simpl; congruence.
Qed.

(** A row stamped with a non-empty string is after every checkpoint
    whose [modified] is falsy. *)
Lemma after_falsy_checkpoint (C : SupabaseReplicationCheckpoint) (r : Row) :
  truthy (modified C) = false ->
  is_timestamp (get r (lastModifiedFieldName self)) ->
  after_checkpoint self C r = true.
Proof.
  intros T [s [Hs Hne]]. unfold after_checkpoint. rewrite Hs.
  destruct (modified C) as [| | b | z | t | t]; simpl in *; auto;
    try discriminate.
  destruct (String.eqb_spec t ""); [subst | discriminate].
  now rewrite string_compare_empty.
Qed.

Lemma selects_beyond_timestamped (lc : option SupabaseReplicationCheckpoint)
  (tbl : list Row) (r : Row) :
  timestamped self tbl ->
  In r tbl ->
  selects self lc r = beyond self lc r.
Proof.
  intros Ht Hr. rewrite selects_spec. destruct lc as [C |]; simpl; auto.
  destruct (truthy (modified C)) eqn:T; auto.
  unfold timestamped in Ht. rewrite Forall_forall in Ht.
  symmetry. apply after_falsy_checkpoint; auto.
Qed.

End PullLoop.

Lemma distinct_keys_filter (self : SupabaseReplication) (p : Row -> bool)
  (tbl : list Row) :
  distinct_keys self tbl -> distinct_keys self (filter p tbl).
Proof.
  unfold distinct_keys. induction tbl as [| x l IH]; simpl; intros H; auto.
  inversion H as [| ? ? Hx Hl]; subst.
  destruct (p x); simpl; auto. constructor; auto.
  intros Hin. apply Hx. apply in_map_iff in Hin as [y [Hy Hin]].
  apply in_map_iff. exists y. split; auto. now apply filter_In in Hin.
Qed.

(** C2, as the code has it.  On a table whose rows carry a non-empty
    string in the last-modified column, pairwise distinct
    [(modified, primaryKey)] pairs and safe integers for numbers,
    pulling with a fixed batch size of at least one, each call from the
    checkpoint the previous one handed back, reaches an empty batch,
    whatever the initial checkpoint, and the documents of all batches
    together are the rows after the initial checkpoint (all rows when
    it is absent), each exactly once, in strictly ascending
    [(modified, primaryKey)] order, whatever the batch size.  With two
    rows of one [modified] value and primary keys ["2"] and ["3"], two
    pulls of batch size 1 from no checkpoint yield row ["2"], then row
    ["3"]. *)
Theorem pull_until_empty_complete :
  (forall (self : SupabaseReplication) (batchSize fuel : nat)
          (lastCheckpoint : option SupabaseReplicationCheckpoint) (st : remote),
      0 < batchSize ->
      reliable st ->
      timestamped self (rows st) ->
      distinct_keys self (rows st) ->
      safe_numbers (rows st) ->
      length (rows st) < fuel ->
      exists out,
        pullUntilEmpty fuel self lastCheckpoint batchSize st = Some out
        /\ Permutation out (filter (beyond self lastCheckpoint) (rows st))
        /\ StronglySorted (key_lt self) out)
  /\ (forall tbl,
        tbl = [human2; human3] \/ tbl = [human3; human2] ->
        pull_received humans None 1 (remote_of tbl)
        = (Returned {| checkpoint := Some (rowToCheckpoint humans human2);
                       documents := [human2] |}, remote_of tbl)
        /\ pull_received humans (Some (rowToCheckpoint humans human2)) 1
             (remote_of tbl)
           = (Returned {| checkpoint := Some (rowToCheckpoint humans human3);
                          documents := [human3] |}, remote_of tbl)).
Proof.
  split.
  - intros self n fuel lc st Hn Hst Ht Hd Hsafe Hfuel.
    exists (sort_by (key_columns self) (filter (beyond self lc) (rows st))).
    split; [| split].
    + rewrite (pull_loop_from self n fuel lc st Hn Hst Hsafe
                 (stamped_of_timestamped self _ Ht) Hd Hfuel).
      do 2 f_equal. apply filter_ext_in. intros r Hr.
      now apply (selects_beyond_timestamped self lc (rows st)).
    + apply sort_by_perm.
    + apply sort_by_key_strict. now apply distinct_keys_filter.
  - intros tbl [-> | ->]; split; reflexivity.
Qed.

Lemma pull_until_empty_complete_witness :
  0 < 2
  /\ reliable (remote_of [human3; alice; human2])
  /\ timestamped humans [human3; alice; human2]
  /\ distinct_keys humans [human3; alice; human2]
  /\ safe_numbers [human3; alice; human2]
  /\ exists out,
      pullUntilEmpty 4 humans (Some (rowToCheckpoint humans alice)) 2
        (remote_of [human3; alice; human2]) = Some out
      /\ Permutation out
           (filter (beyond humans (Some (rowToCheckpoint humans alice)))
              [human3; alice; human2])
      /\ StronglySorted (key_lt humans) out.
Proof.
  assert (R : reliable (remote_of [human3; alice; human2])) by constructor.
  assert (T : timestamped humans [human3; alice; human2]).
  { repeat constructor; eexists; (split; [reflexivity | discriminate]). }
  assert (D : distinct_keys humans [human3; alice; human2]).
  { repeat constructor; simpl; intuition discriminate. }
  assert (N : safe_numbers [human3; alice; human2]) by (repeat constructor).
  split; [lia |]. split; [exact R |]. split; [exact T |]. split; [exact D |].
  split; [exact N |].
  apply (proj1 pull_until_empty_complete humans 2 4
           (Some (rowToCheckpoint humans alice))
           (remote_of [human3; alice; human2]));
    [lia | exact R | exact T | exact D | exact N | simpl; lia].
Defined.

(** C2 as stated fails on four kinds of input.  On a table whose one
    row has the empty string in its last-modified column, the
    checkpoint handed back is not filtered on, every pull delivers that
    row again and the loop never reaches an empty batch.  On a table
    whose one row has the key [2 ^ 53 + 1], the client holds the key as
    [2 ^ 53], the row is after the checkpoint handed back, and every
    pull delivers it again.  With two rows that share their
    [(modified, primaryKey)] pair, the pull from the checkpoint of the
    first skips the second.  With a batch size of 0 the first batch is
    empty and no row is delivered. *)
Lemma pull_until_empty_incomplete :
  (distinct_keys humans [unstamped] /\ safe_numbers [unstamped]
   /\ pull_received humans None 1 (remote_of [unstamped])
      = (Returned {| checkpoint := Some unstamped_checkpoint;
                     documents := [unstamped] |}, remote_of [unstamped])
   /\ pull_received humans (Some unstamped_checkpoint) 1
        (remote_of [unstamped])
      = (Returned {| checkpoint := Some unstamped_checkpoint;
                     documents := [unstamped] |}, remote_of [unstamped])
   /\ forall fuel,
        pullUntilEmpty fuel humans None 1 (remote_of [unstamped]) = None)
  /\ (timestamped humans [beyond_safe] /\ distinct_keys humans [beyond_safe]
      /\ pull_received humans None 1 (remote_of [beyond_safe])
         = (Returned {| checkpoint := Some beyond_safe_checkpoint;
                        documents := [beyond_safe_decoded] |},
            remote_of [beyond_safe])
      /\ pull_received humans (Some beyond_safe_checkpoint) 1
           (remote_of [beyond_safe])
         = (Returned {| checkpoint := Some beyond_safe_checkpoint;
                        documents := [beyond_safe_decoded] |},
            remote_of [beyond_safe])
      /\ forall fuel,
           pullUntilEmpty fuel humans None 1 (remote_of [beyond_safe]) = None)
  /\ (timestamped humans_by_uid [twin1; twin2] /\ safe_numbers [twin1; twin2]
      /\ pullUntilEmpty 3 humans_by_uid None 1 (remote_of [twin1; twin2])
         = Some [twin1])
  /\ pullUntilEmpty 2 humans None 0 (remote_of [alice]) = Some [].
Proof.
  assert (E1 : pull_received humans None 1 (remote_of [unstamped])
               = (Returned {| checkpoint := Some unstamped_checkpoint;
                              documents := [unstamped] |}, remote_of [unstamped]))
    by reflexivity.
  assert (E2 : pull_received humans (Some unstamped_checkpoint) 1
                 (remote_of [unstamped])
               = (Returned {| checkpoint := Some unstamped_checkpoint;
                              documents := [unstamped] |}, remote_of [unstamped]))
    by reflexivity.
  assert (E3 : pull_received humans None 1 (remote_of [beyond_safe])
               = (Returned {| checkpoint := Some beyond_safe_checkpoint;
                              documents := [beyond_safe_decoded] |},
                  remote_of [beyond_safe]))
    by (vm_compute; reflexivity).
  assert (E4 : pull_received humans (Some beyond_safe_checkpoint) 1
                 (remote_of [beyond_safe])
               = (Returned {| checkpoint := Some beyond_safe_checkpoint;
                              documents := [beyond_safe_decoded] |},
                  remote_of [beyond_safe]))
    by (vm_compute; reflexivity).
  split; [| split; [| split]].
  - split; [repeat constructor; simpl; intuition |].
    split; [repeat constructor |].
    split; [exact E1 |]. split; [exact E2 |].
    assert (L : forall fuel lc,
               lc = None \/ lc = Some unstamped_checkpoint ->
               pullUntilEmpty fuel humans lc 1 (remote_of [unstamped]) = None).
    { induction fuel as [| fuel IH]; intros lc Hlc; [reflexivity |].
      cbn [pullUntilEmpty].
      destruct Hlc as [-> | ->]; [rewrite E1 | rewrite E2];
        cbn [documents checkpoint]; rewrite IH; auto. }
    intros fuel. apply L. now left.
  - split; [repeat constructor; eexists; (split; [reflexivity | discriminate]) |].
    split; [repeat constructor; simpl; intuition |].
    split; [exact E3 |]. split; [exact E4 |].
    assert (L : forall fuel lc,
               lc = None \/ lc = Some beyond_safe_checkpoint ->
               pullUntilEmpty fuel humans lc 1 (remote_of [beyond_safe]) = None).
    { induction fuel as [| fuel IH]; intros lc Hlc; [reflexivity |].
      cbn [pullUntilEmpty].
      destruct Hlc as [-> | ->]; [rewrite E3 | rewrite E4];
        cbn [documents checkpoint]; rewrite IH; auto. }
    intros fuel. apply L. now left.
  - split; [repeat constructor; eexists; (split; [reflexivity | discriminate]) |].
    split; [repeat constructor |]. reflexivity.
  - reflexivity.
Qed.

(** ** Pushing one document *)

Section Push.

Variable self : SupabaseReplication.

Lemma firstn_1_filter (p : Row -> bool) (l : list Row) :
  firstn 1 (filter p l) = match find p l with Some r => [r] | None => [] end.
Proof.
  induction l as [| x l IH]; simpl; auto.
  destruct (p x); simpl; auto.
Qed.

Lemma fetch_rows (key : value) (tbl : list Row) :
  select_rows
    (sel_limit_to (sel_eq (from_select (table self)) (primaryKey self) key) 1) tbl
  = match stored self key tbl with Some r => [r] | None => [] end.
Proof.
  unfold select_rows, stored, sel_limit_to, sel_eq, sel_where, from_select.
  cbn [sel_limit sel_order sel_filters apply_limit app].
  rewrite sort_by_unordered, <- firstn_1_filter. f_equal.
  apply filter_ext. intros r. apply andb_true_r.
Qed.

Lemma fetch_found (key : value) (st : remote) (cur : Row) :
  answers st -> stored self key (rows st) = Some cur ->
  fetchByPrimaryKey self key st = (Returned cur, after_request st).
Proof.
  intros Hst Hcur. unfold fetchByPrimaryKey, bind, await_select.
  rewrite run_select_answers by assumption. simpl.
  rewrite fetch_rows, Hcur. reflexivity.
Qed.

Lemma fetch_missing (key : value) (st : remote) :
  answers st -> stored self key (rows st) = None ->
  fetchByPrimaryKey self key st
  = (Threw (JsError "No row with given primary key"), after_request st).
Proof.
  intros Hst Hcur. unfold fetchByPrimaryKey, bind, await_select.
  rewrite run_select_answers by assumption. simpl.
  rewrite fetch_rows, Hcur. reflexivity.
Qed.

Lemma conflict_found (key : value) (st : remote) (cur : Row) :
  answers st -> stored self key (rows st) = Some cur ->
  conflict_result self key st = (Returned [cur], after_request st).
Proof.
  intros Hst Hcur. unfold conflict_result, bind.
  now rewrite (fetch_found key st cur).
Qed.

Lemma handleInsertion_reply (doc : Row) (st : remote) :
  handleInsertion self doc st
  = match error (fst (run_insert (table self) doc st)) with
    | None => (Returned [], snd (run_insert (table self) doc st))
    | Some e =>
        if code e =? POSTGRES_DUPLICATE_KEY_ERROR_CODE
        then conflict_result self (get doc (primaryKey self))
               (snd (run_insert (table self) doc st))
        else (Threw (PgError e), snd (run_insert (table self) doc st))
    end.
Proof.
  unfold handleInsertion, bind, await_insert.
  destruct (run_insert (table self) doc st) as [r st1]; simpl.
  destruct (error r) as [e |]; auto.
  destruct (code e =? POSTGRES_DUPLICATE_KEY_ERROR_CODE); reflexivity.
Qed.

Lemma run_insert_answers (doc : Row) (st : remote) :
  answers st ->
  run_insert (table self) doc st
  = if existsb (fun r => value_eqb (get r (pkey st)) (get doc (pkey st))) (rows st)
    then (reply_error duplicate_key, after_request st)
    else (reply_rows [], with_rows (after_request st) (rows st ++ [doc])).
Proof.
  unfold answers, run_insert, after_request. intros H.
  destruct (next_fault st) as [f st'] eqn:E. simpl in *. subst f.
  assert (rows st' = rows st /\ pkey st' = pkey st) as [-> ->].
  { unfold next_fault in E. destruct (faults st); inversion E; auto. }
  reflexivity.
Qed.

Lemma find_existsb (p : Row -> bool) (l : list Row) :
  existsb p l = match find p l with Some _ => true | None => false end.
Proof.
  induction l as [| x l IH]; simpl; auto. destruct (p x); auto.
Qed.

(** The conditions of the default update handler. *)
Lemma add_conditions_supported (es : list (string * value)) (q : update_query) :
  supported es = true ->
  add_conditions es q
  = Returned {| upd_from := upd_from q;
                upd_values := upd_values q;
                upd_filters := upd_filters q ++ map field_condition es |}.
Proof.
  revert q. induction es as [| [field v] es IH]; intros q H; simpl.
  - rewrite app_nil_r. now destruct q.
  - unfold supported in H. simpl in H. apply andb_true_iff in H as [Hv H].
    destruct v; simpl in *; try discriminate;
      rewrite IH by exact H; simpl; rewrite <- app_assoc; reflexivity.
Qed.

Lemma add_conditions_unsupported (es : list (string * value)) (q : update_query) :
  supported es = false ->
  exists field v,
    In (field, v) es /\ comparable v = false
    /\ add_conditions es q
       = Threw (JsError ("replicateSupabase: Unsupported field of type " ++ typeof v)).
Proof.
  revert q. induction es as [| [field v] es IH]; intros q H; [discriminate |].
  unfold supported in H. simpl in H.
  destruct (comparable v) eqn:Cv; simpl in H.
  - destruct (IH (if (typeof v =? "string") || (typeof v =? "number")
                  then upd_eq q field v else upd_is q field v) H)
      as [f [w [Hin [Hw E]]]].
    exists f, w. split; [now right |]. split; [exact Hw |].
    destruct v; simpl in *; try discriminate; exact E.
  - exists field, v. split; [now left |]. split; [exact Cv |].
    destruct v; simpl in *; try discriminate; reflexivity.
Qed.

Lemma holds_field_condition (kv : string * value) (r : Row) :
  holds (field_condition kv) r = value_eqb (get r (fst kv)) (snd kv).
Proof.
  unfold field_condition. destruct (snd kv); reflexivity.
Qed.

Lemma matches_conditions (assumed r : Row) :
  matches (map field_condition assumed) r = agrees assumed r.
Proof.
  unfold matches, agrees. induction assumed as [| kv l IH]; simpl; auto.
  now rewrite holds_field_condition, IH.
Qed.

Lemma defaultUpdateHandler_reply (row : PushRow) (assumed : Row) (st : remote) :
  assumedMasterState row = Some assumed ->
  supported assumed = true ->
  let q := conditional_update self (newDocumentState row) assumed in
  defaultUpdateHandler self row st
  = match error (fst (run_update q st)) with
    | Some e => (Threw (PgError e), snd (run_update q st))
    | None =>
        (Returned (match count (fst (run_update q st)) with
                   | Some 1 => true
                   | _ => false
                   end), snd (run_update q st))
    end.
Proof.
  intros Ha Hs q. unfold defaultUpdateHandler. rewrite Ha.
  unfold entries. rewrite add_conditions_supported by assumption.
  simpl. fold (conditional_update self (newDocumentState row) assumed). fold q.
  unfold bind, await_update.
  destruct (run_update q st) as [r st1]; simpl.
  destruct (error r); reflexivity.
Qed.

Lemma handleUpdate_default (row : PushRow) (st : remote) :
  custom_updateHandler self = None ->
  handleUpdate self row st
  = match defaultUpdateHandler self row st with
    | (Returned true, st1) => (Returned [], st1)
    | (Returned false, st1) =>
        conflict_result self (get (newDocumentState row) (primaryKey self)) st1
    | (Threw e, st1) => (Threw e, st1)
    end.
Proof.
  unfold custom_updateHandler. intros H. unfold handleUpdate. rewrite H.
  unfold bind. destruct (defaultUpdateHandler self row st) as [[[|] | e] st1];
    reflexivity.
Qed.

Lemma updated_rows_none (q : update_query) (tbl : list Row) :
  affected q tbl = 0 -> updated_rows q tbl = tbl.
Proof.
  unfold affected, updated_rows. induction tbl as [| x l IH]; simpl; auto.
  destruct (matches (upd_filters q) x); simpl; [discriminate |].
  intros H. now rewrite IH.
Qed.

Lemma run_update_answers (q : update_query) (st : remote) :
  answers st ->
  run_update q st
  = if distinct_on (pkey st) (updated_rows q (rows st))
    then (reply_count (affected q (rows st)),
          with_rows (after_request st) (updated_rows q (rows st)))
    else (reply_error duplicate_key, after_request st).
Proof.
  unfold answers, run_update, after_request. intros H.
  destruct (next_fault st) as [f st'] eqn:E. simpl in *. subst f.
  assert (rows st' = rows st /\ pkey st' = pkey st) as [-> ->].
  { unfold next_fault in E. destruct (faults st); inversion E; auto. }
  reflexivity.
Qed.

(** An update that reports no affected row left the table as it was. *)
Lemma run_update_untouched (q : update_query) (st : remote) :
  error (fst (run_update q st)) = None ->
  count (fst (run_update q st)) = Some 0 ->
  rows (snd (run_update q st)) = rows st.
Proof.
  unfold run_update. next_request st; try discriminate;
    match goal with
    | |- context [distinct_on ?c ?l] => destruct (distinct_on c l)
    end; simpl; try discriminate; intros _ H; inversion H;
    now apply updated_rows_none.
Qed.

End Push.

(** C5.  A push without [assumedMasterState] inserts the document.
    When the insert succeeds the result is the empty list; when it
    fails with the duplicate-key code the row stored under the primary
    key is fetched and handed back as a one-element result; any other
    error of the insert is thrown as it is.  Against a table keyed by
    the replication's primary key: a key already stored yields the
    stored row and leaves the table as it was, a new key appends the
    document. *)
Theorem push_insert_outcomes (self : SupabaseReplication) (doc : Row) (st : remote) :
  let row := {| newDocumentState := doc; assumedMasterState := None |} in
  let reply := fst (run_insert (table self) doc st) in
  let st1 := snd (run_insert (table self) doc st) in
  (error reply = None -> pushOne self row st = (Returned [], st1))
  /\ (forall e, error reply = Some e ->
                code e = POSTGRES_DUPLICATE_KEY_ERROR_CODE ->
                pushOne self row st
                = conflict_result self (get doc (primaryKey self)) st1)
  /\ (forall e, error reply = Some e ->
                code e <> POSTGRES_DUPLICATE_KEY_ERROR_CODE ->
                pushOne self row st = (Threw (PgError e), st1))
  /\ (reliable st -> pkey st = primaryKey self ->
      forall cur,
        stored self (get doc (primaryKey self)) (rows st) = Some cur ->
        pushOne self row st = (Returned [cur], after_request (after_request st))
        /\ rows (after_request (after_request st)) = rows st)
  /\ (answers st -> pkey st = primaryKey self ->
      stored self (get doc (primaryKey self)) (rows st) = None ->
      pushOne self row st
      = (Returned [], with_rows (after_request st) (rows st ++ [doc]))).
Proof.
  intros row reply st1.
  assert (E : pushOne self row st = handleInsertion self doc st) by reflexivity.
  rewrite E, handleInsertion_reply. fold reply st1.
  split; [| split; [| split; [| split]]].
  - intros H. now rewrite H.
  - intros e H Hc. rewrite H, Hc. reflexivity.
  - intros e H Hc. rewrite H.
    destruct (String.eqb_spec (code e) POSTGRES_DUPLICATE_KEY_ERROR_CODE);
      [contradiction | reflexivity].
  - intros Hst Hk cur Hcur. unfold reply, st1.
    rewrite run_insert_answers by now apply reliable_answers.
    rewrite Hk, find_existsb. unfold stored in Hcur. rewrite Hcur. simpl.
    split; [| now rewrite !rows_after_request].
    apply conflict_found.
    + now apply reliable_answers, reliable_after_request.
    + now rewrite rows_after_request.
  - intros Hst Hk Hcur. unfold reply, st1.
    rewrite run_insert_answers by assumption.
    rewrite Hk, find_existsb. unfold stored in Hcur. rewrite Hcur. reflexivity.
Qed.

Lemma push_insert_outcomes_witness :
  reliable (remote_of [alice_aged_5])
  /\ stored humans (get alice_aged_42 (primaryKey humans)) [alice_aged_5]
     = Some alice_aged_5
  /\ pushOne humans {| newDocumentState := alice_aged_42; assumedMasterState := None |}
       (remote_of [alice_aged_5])
     = (Returned [alice_aged_5], remote_of [alice_aged_5])
  /\ pushOne humans {| newDocumentState := zed; assumedMasterState := None |}
       (remote_of [alice_aged_5])
     = (Returned [], remote_of [alice_aged_5; zed]).
Proof.
  assert (R : reliable (remote_of [alice_aged_5])) by constructor.
  split; [exact R |]. split; [reflexivity |]. split.
  - exact (proj1 (proj1 (proj2 (proj2 (proj2
             (push_insert_outcomes humans alice_aged_42 (remote_of [alice_aged_5])))))
             R eq_refl alice_aged_5 eq_refl)).
  - exact (proj2 (proj2 (proj2 (proj2
             (push_insert_outcomes humans zed (remote_of [alice_aged_5])))))
             eq_refl eq_refl eq_refl).
Defined.

Lemma affected_agrees (self : SupabaseReplication) (values assumed : Row)
  (tbl : list Row) :
  affected (conditional_update self values assumed) tbl
  = length (filter (agrees assumed) tbl).
Proof.
  unfold affected, conditional_update. simpl. f_equal.
  apply filter_ext. intros r. apply matches_conditions.
Qed.

Lemma pushOne_update (self : SupabaseReplication) (row : PushRow)
  (assumed : Row) (st : remote) :
  assumedMasterState row = Some assumed ->
  custom_updateHandler self = None ->
  supported assumed = true ->
  let q := conditional_update self (newDocumentState row) assumed in
  pushOne self row st
  = match error (fst (run_update q st)) with
    | Some e => (Threw (PgError e), snd (run_update q st))
    | None =>
        match count (fst (run_update q st)) with
        | Some 1 => (Returned [], snd (run_update q st))
        | _ => conflict_result self (get (newDocumentState row) (primaryKey self))
                 (snd (run_update q st))
        end
    end.
Proof.
  intros Ha Hc Hs q. unfold pushOne, pushHandler. rewrite Ha.
  rewrite handleUpdate_default by assumption.
  rewrite (defaultUpdateHandler_reply self row assumed st Ha Hs). fold q.
  destruct (error (fst (run_update q st))); auto.
  destruct (count (fst (run_update q st))) as [[| [| c]] |]; reflexivity.
Qed.

(** C6.  A push with [assumedMasterState], handled by the default
    update handler, updates under the condition that a row agrees with
    every assumed field exactly.  When the update affects exactly one
    row the result is the empty list; when it affects no row the table
    is left as it was and the row stored under the primary key is
    fetched and handed back as a one-element result, not an error. *)
Theorem push_update_outcomes (self : SupabaseReplication) (row : PushRow)
  (assumed : Row) (st : remote) :
  assumedMasterState row = Some assumed ->
  custom_updateHandler self = None ->
  supported assumed = true ->
  let q := conditional_update self (newDocumentState row) assumed in
  let key := get (newDocumentState row) (primaryKey self) in
  let reply := fst (run_update q st) in
  let st1 := snd (run_update q st) in
  (forall r, matches (upd_filters q) r = agrees assumed r)
  /\ (error reply = None -> count reply = Some 1 ->
      pushOne self row st = (Returned [], st1))
  /\ (error reply = None -> count reply = Some 0 ->
      rows st1 = rows st /\ pushOne self row st = conflict_result self key st1)
  /\ (reliable st -> distinct_on (pkey st) (rows st) = true ->
      (forall r, In r (rows st) -> agrees assumed r = false) ->
      forall cur,
        stored self key (rows st) = Some cur ->
        pushOne self row st = (Returned [cur], after_request (after_request st))
        /\ rows (after_request (after_request st)) = rows st)
  /\ (answers st ->
      length (filter (agrees assumed) (rows st)) = 1 ->
      distinct_on (pkey st) (updated_rows q (rows st)) = true ->
      pushOne self row st
      = (Returned [], with_rows (after_request st) (updated_rows q (rows st)))).
Proof.
  intros Ha Hc Hs q key reply st1.
  rewrite (pushOne_update self row assumed st Ha Hc Hs). fold q reply st1 key.
  split; [| split; [| split; [| split]]].
  - intros r. apply matches_conditions.
  - intros He Hn. now rewrite He, Hn.
  - intros He Hn. rewrite He, Hn. split; [| reflexivity].
    now apply run_update_untouched.
  - intros Hst Hd Hno cur Hcur. unfold reply, st1.
    rewrite run_update_answers by now apply reliable_answers.
    assert (Hz : affected q (rows st) = 0).
    { unfold q. rewrite affected_agrees, filter_none; auto. }
    rewrite (updated_rows_none q _ Hz), Hd, Hz. simpl.
    assert (Hw : with_rows (after_request st) (rows st) = after_request st).
    { unfold with_rows. rewrite <- (rows_after_request st).
      now destruct (after_request st). }
    rewrite Hw. split; [| now rewrite !rows_after_request].
    apply conflict_found.
    + now apply reliable_answers, reliable_after_request.
    + now rewrite rows_after_request.
  - intros Hst Hn Hd. unfold reply, st1.
    rewrite run_update_answers by assumption. rewrite Hd.
    assert (Hq : affected q (rows st) = 1)
      by (unfold q; rewrite affected_agrees; exact Hn).
    rewrite Hq. reflexivity.
Qed.

Lemma push_update_outcomes_witness :
  supported [("id", VString "1"); ("age", VNumber 5)] = true
  /\ reliable (remote_of [alice_aged_5])
  /\ pushOne humans
       {| newDocumentState := alice_aged_42;
          assumedMasterState := Some [("id", VString "1"); ("age", VNumber 5)] |}
       (remote_of [alice_aged_5])
     = (Returned [], remote_of [alice_aged_42])
  /\ pushOne humans push_assuming_alice (remote_of [alice_aged_5])
     = (Returned [alice_aged_5], remote_of [alice_aged_5]).
Proof.
  assert (R : reliable (remote_of [alice_aged_5])) by constructor.
  split; [reflexivity |]. split; [exact R |]. split.
  - exact (proj2 (proj2 (proj2 (proj2
             (push_update_outcomes humans
                {| newDocumentState := alice_aged_42;
                   assumedMasterState := Some [("id", VString "1"); ("age", VNumber 5)] |}
                [("id", VString "1"); ("age", VNumber 5)]
                (remote_of [alice_aged_5]) eq_refl eq_refl eq_refl))))
             eq_refl eq_refl eq_refl).
  - refine (proj1 (proj1 (proj2 (proj2 (proj2
             (push_update_outcomes humans push_assuming_alice alice
                (remote_of [alice_aged_5]) eq_refl eq_refl eq_refl))))
             R eq_refl _ alice_aged_5 eq_refl)).
    intros r [<- | []]. reflexivity.
Defined.

Lemma conflict_result_not_empty (self : SupabaseReplication) (key : value)
  (st s : remote) :
  conflict_result self key st <> (Returned [], s).
Proof.
  unfold conflict_result, bind, ret.
  destruct (fetchByPrimaryKey self key st) as [[d | e] st']; discriminate.
Qed.

(** When the conditional update of the default handler affects more
    than one row, no error is raised for it: the handler answers false
    and the push goes on as for a conflict, fetching the row stored
    under the primary key and handing it back as a one-element result;
    it never returns the empty list, and it fails only if that fetch
    fails. *)
Lemma push_update_many_is_conflict (self : SupabaseReplication) (row : PushRow)
  (assumed : Row) (st : remote) (c : nat) :
  assumedMasterState row = Some assumed ->
  custom_updateHandler self = None ->
  supported assumed = true ->
  let q := conditional_update self (newDocumentState row) assumed in
  let key := get (newDocumentState row) (primaryKey self) in
  let st1 := snd (run_update q st) in
  error (fst (run_update q st)) = None ->
  count (fst (run_update q st)) = Some c ->
  1 < c ->
  defaultUpdateHandler self row st = (Returned false, st1)
  /\ pushOne self row st = conflict_result self key st1
  /\ (forall s, pushOne self row st <> (Returned [], s))
  /\ (forall cur,
        answers st1 -> stored self key (rows st1) = Some cur ->
        pushOne self row st = (Returned [cur], after_request st1)).
Proof.
  intros Ha Hc Hs q key st1 He Hn Hgt.
  assert (E : pushOne self row st = conflict_result self key st1).
  { rewrite (pushOne_update self row assumed st Ha Hc Hs). fold q.
    rewrite He, Hn. destruct c as [| [| c]]; [lia | lia | reflexivity]. }
  split; [| split; [exact E |]; split].
  - rewrite (defaultUpdateHandler_reply self row assumed st Ha Hs). fold q.
    rewrite He, Hn. destruct c as [| [| c]]; [lia | lia | reflexivity].
  - intros s. rewrite E. apply conflict_result_not_empty.
  - intros cur Hst Hcur. rewrite E. now apply conflict_found.
Qed.

(** C7.  The code at the failing input: a replication keyed by [uid],
    a column the table has no constraint on, and two rows that agree
    with the assumed state.  The conditional update is sent without an
    error, it is applied to both rows, and the default handler answers
    false, as for an update that was not applied; the push then hands
    back the row fetched by primary key, already updated, as a
    one-element conflict result.  Nothing is thrown. *)
Lemma push_update_many_returns_conflict :
  supported [("uid", VString "a"); ("name", VString "Bob")] = true
  /\ affected
       (conditional_update by_uid (newDocumentState push_rename_bob)
          [("uid", VString "a"); ("name", VString "Bob")])
       [bob1; bob2] = 2
  /\ defaultUpdateHandler by_uid push_rename_bob
       {| rows := [bob1; bob2]; pkey := "id"; faults := [] |}
     = (Returned false,
        {| rows := [robert1; robert2]; pkey := "id"; faults := [] |})
  /\ pushOne by_uid push_rename_bob
       {| rows := [bob1; bob2]; pkey := "id"; faults := [] |}
     = (Returned [robert1],
        {| rows := [robert1; robert2]; pkey := "id"; faults := [] |})
  /\ forall e s,
       pushOne by_uid push_rename_bob
         {| rows := [bob1; bob2]; pkey := "id"; faults := [] |}
       <> (Threw e, s).
Proof.
  split; [reflexivity |]. split; [reflexivity |]. split; [reflexivity |].
  split; [reflexivity |].
  intros e s. discriminate.
Qed.

(** C8.  The default update handler puts one condition on every field
    of [assumedMasterState]: an equality for a string or a number, an
    [is] for a boolean or null.  For a field of any other type it throws
    the unsupported-type error before any request is issued, leaving the
    remote side untouched.  Pushing with the assumed state [{age: null}]
    for the stored key while the stored age is 5 returns the stored row,
    age 5, as a conflict. *)
Theorem default_update_conditions :
  (forall (es : list (string * value)) (q : update_query),
      supported es = true ->
      add_conditions es q
      = Returned {| upd_from := upd_from q;
                    upd_values := upd_values q;
                    upd_filters := upd_filters q ++ map field_condition es |})
  /\ (forall field s, field_condition (field, VString s) = CEq field (VString s))
  /\ (forall field n, field_condition (field, VNumber n) = CEq field (VNumber n))
  /\ (forall field b, field_condition (field, VBool b) = CIs field (VBool b))
  /\ (forall field, field_condition (field, VNull) = CIs field VNull)
  /\ (forall (self : SupabaseReplication) (row : PushRow) (assumed : Row)
             (st : remote),
         assumedMasterState row = Some assumed ->
         custom_updateHandler self = None ->
         supported assumed = false ->
         exists field v,
           In (field, v) assumed
           /\ comparable v = false
           /\ pushOne self row st
              = (Threw (JsError ("replicateSupabase: Unsupported field of type "
                                   ++ typeof v)), st))
  /\ pushOne humans push_assuming_no_age (remote_of [alice_aged_5])
     = (Returned [alice_aged_5], remote_of [alice_aged_5]).
Proof.
  split; [exact add_conditions_supported |].
  repeat (split; [reflexivity |]).
  split; [| reflexivity].
  intros self row assumed st Ha Hc Hs.
  destruct (add_conditions_unsupported assumed
              (from_update (table self) (newDocumentState row)) Hs)
    as [field [v [Hin [Hv E]]]].
  exists field, v. split; [exact Hin |]. split; [exact Hv |].
  unfold pushOne, pushHandler. rewrite Ha, handleUpdate_default by assumption.
  unfold defaultUpdateHandler. rewrite Ha. unfold entries. rewrite E.
  reflexivity.
Qed.

Lemma default_update_conditions_witness :
  supported [("tags", VObject "[1,2]")] = false
  /\ exists field v,
      In (field, v) [("tags", VObject "[1,2]")]
      /\ comparable v = false
      /\ pushOne humans
           {| newDocumentState := alice_aged_42;
              assumedMasterState := Some [("tags", VObject "[1,2]")] |}
           (remote_of [alice_aged_5])
         = (Threw (JsError ("replicateSupabase: Unsupported field of type "
                              ++ typeof v)), remote_of [alice_aged_5]).
Proof.
  split; [reflexivity |].
  exact (proj1 (proj2 (proj2 (proj2 (proj2 (proj2 default_update_conditions)))))
           humans
           {| newDocumentState := alice_aged_42;
              assumedMasterState := Some [("tags", VObject "[1,2]")] |}
           [("tags", VObject "[1,2]")] (remote_of [alice_aged_5])
           eq_refl eq_refl eq_refl).
Defined.

(** ** The realtime relay *)

Section Relay.

Variable self : SupabaseReplication.




Lemma deliver_quiet (p : Payload) (st : relay) :
  quiet st -> realtimeChanges (deliver self p st) = realtimeChanges st.
Proof.
  unfold quiet, deliver; simpl.
  generalize (realtimeChanges st). induction (channels st) as [| c chs IH];
    intros sink H; simpl; auto.
  inversion H; subst. now apply IH.
Qed.


Lemma leave_quiet (i : nat) (chs : list bool) :
  Forall (fun joined => joined = false) chs ->
  Forall (fun joined => joined = false) (leave i chs).
Proof.
  intros H. revert i. induction H as [| c chs Hc Hs IH]; intros [| i]; simpl;
    constructor; auto.
Qed.


Lemma leave_left (i : nat) (chs : list bool) :
  nth_error (leave i chs) i <> Some true.
Proof.
  revert i. induction chs as [| c chs IH]; intros [| i]; simpl;
    try discriminate. apply IH.
Qed.


Lemma cancel_quiet (st : relay) :
  quiet st -> quiet (cancel self st) /\ realtimeChanges (cancel self st) = realtimeChanges st.
Proof.
  unfold quiet, cancel. intros H.
  destruct (realtimeChannel st); simpl; split; auto. now apply leave_quiet.
Qed.







End Relay.




(** * Further properties of the code *)

(** ** Pulling *)

Lemma run_select_state (q : select_query) (st : remote) :
  rows (snd (run_select q st)) = rows st
  /\ pkey (snd (run_select q st)) = pkey st
  /\ faults (snd (run_select q st)) = tl (faults st).
Proof.
  unfold run_select, next_fault.
  destruct (faults st) as [| [e |] fs] eqn:F; simpl; rewrite ?F; auto.
Qed.

Lemma run_select_fault (q : select_query) (st : remote) (e : PostgrestError) :
  hd_error (faults st) = Some (Some e) ->
  fst (run_select q st) = reply_error e.
Proof.
  unfold run_select. next_request st; intros H; inversion H; reflexivity.
Qed.

Lemma run_select_data (q : select_query) (st : remote) :
  error (fst (run_select q st)) = None ->
  data (fst (run_select q st)) = select_rows q (rows st).
Proof.
  unfold run_select. next_request st; auto. discriminate.
Qed.

(** X1.  A pull only reads: whatever its outcome, the table and its key
    are as before and exactly one request has been spent; and when that
    request fails, its error is thrown as it is. *)
Theorem pull_reads_only (self : SupabaseReplication)
  (lastCheckpoint : option SupabaseReplicationCheckpoint) (batchSize : nat)
  (st : remote) :
  rows (snd (pullHandler self lastCheckpoint batchSize st)) = rows st
  /\ pkey (snd (pullHandler self lastCheckpoint batchSize st)) = pkey st
  /\ faults (snd (pullHandler self lastCheckpoint batchSize st)) = tl (faults st)
  /\ (forall e,
        hd_error (faults st) = Some (Some e) ->
        fst (pullHandler self lastCheckpoint batchSize st) = Threw (PgError e)).
Proof.
  rewrite pullHandler_reply.
  destruct (run_select_state (pull_query self lastCheckpoint batchSize) st)
    as [H1 [H2 H3]].
  repeat split.
  - destruct (error _); exact H1.
  - destruct (error _); exact H2.
  - destruct (error _); exact H3.
  - intros e He. rewrite (run_select_fault _ st e He). reflexivity.
Qed.

Lemma pull_reads_only_witness :
  hd_error (faults {| rows := [alice]; pkey := "id";
                      faults := [Some {| code := "PGRST301"; message := "JWT expired" |}] |})
  = Some (Some {| code := "PGRST301"; message := "JWT expired" |})
  /\ fst (pullHandler humans None 5
            {| rows := [alice]; pkey := "id";
               faults := [Some {| code := "PGRST301"; message := "JWT expired" |}] |})
     = Threw (PgError {| code := "PGRST301"; message := "JWT expired" |}).
Proof.
  split; [reflexivity |].
  exact (proj2 (proj2 (proj2 (pull_reads_only humans None 5
           {| rows := [alice]; pkey := "id";
              faults := [Some {| code := "PGRST301"; message := "JWT expired" |}] |})))
           _ eq_refl).
Defined.

(** X2.  A pull that returns delivers at most [batchSize] documents, all
    of them rows of the table; with no documents the checkpoint is the
    one passed in, and a batch size of 0 always gives that result. *)
Theorem pull_batch_bounded (self : SupabaseReplication)
  (lastCheckpoint : option SupabaseReplicationCheckpoint) (batchSize : nat)
  (st s : remote) (ev : ChangeEvent) :
  pullHandler self lastCheckpoint batchSize st = (Returned ev, s) ->
  length (documents ev) <= batchSize
  /\ Forall (fun d => In d (rows st)) (documents ev)
  /\ (documents ev = [] -> checkpoint ev = lastCheckpoint)
  /\ (batchSize = 0 ->
      ev = {| checkpoint := lastCheckpoint; documents := [] |}).
Proof.
  rewrite pullHandler_reply.
  destruct (error (fst (run_select (pull_query self lastCheckpoint batchSize) st)))
    eqn:E; [discriminate |].
  intros H. inversion H; subst. clear H.
  rewrite documents_pull_event, (run_select_data _ _ E), pull_query_rows.
  repeat split.
  - rewrite length_firstn. apply Nat.le_min_l.
  - apply Forall_forall. intros d Hd.
    now apply (pulled_in self lastCheckpoint batchSize (rows st)).
  - intros H. now rewrite H.
  - intros ->. reflexivity.
Qed.

Lemma pull_batch_bounded_witness :
  pullHandler humans None 2 (remote_of [human3; alice; human2])
  = (Returned {| checkpoint := Some (rowToCheckpoint humans human2);
                 documents := [alice; human2] |},
     remote_of [human3; alice; human2])
  /\ length [alice; human2] <= 2.
Proof.
  split; [reflexivity |].
  exact (proj1 (pull_batch_bounded humans None 2
                  (remote_of [human3; alice; human2])
                  (remote_of [human3; alice; human2])
                  {| checkpoint := Some (rowToCheckpoint humans human2);
                     documents := [alice; human2] |} eq_refl)).
Defined.

Lemma pulled_sorted (self : SupabaseReplication)
  (lc : option SupabaseReplicationCheckpoint) (n : nat) (tbl : list Row) :
  StronglySorted (key_le self) (pulled self lc n tbl).
Proof.
  unfold pulled. apply firstn_sorted, sort_by_key_sorted.
Qed.

(** The batch of a pull from a truthy checkpoint, when not empty, ends
    strictly beyond the checkpoint, every row of it after the
    checkpoint and not after the one it ends at. *)
Lemma pulled_progress (self : SupabaseReplication)
  (C : SupabaseReplicationCheckpoint) (n : nat) (tbl : list Row) :
  truthy (modified C) = true ->
  pulled self (Some C) n tbl <> [] ->
  exists C',
    checkpoint (pull_event self (Some C) (pulled self (Some C) n tbl)) = Some C'
    /\ checkpoint_compare C C' = Lt
    /\ Forall (fun d =>
                 checkpoint_compare (rowToCheckpoint self d) C = Gt
                 /\ checkpoint_compare (rowToCheckpoint self d) C' <> Gt)
         (pulled self (Some C) n tbl).
Proof.
  intros HC Hne.
  destruct (exists_last Hne) as [front [L HL]].
  assert (Hafter : forall d, In d (pulled self (Some C) n tbl) ->
                             checkpoint_compare (rowToCheckpoint self d) C = Gt).
  { intros d Hd. apply pulled_in in Hd as [_ Hd].
    rewrite selects_spec, HC, after_checkpoint_compare in Hd.
    destruct (checkpoint_compare (rowToCheckpoint self d) C); congruence. }
  exists (rowToCheckpoint self L). split; [| split].
  - rewrite HL. unfold pull_event.
    destruct (front ++ [L]) eqn:F; [now destruct front |].
    rewrite <- F, last_last. reflexivity.
  - rewrite (checkpoint_compare_antisym (rowToCheckpoint self L) C).
    rewrite Hafter; [reflexivity |]. rewrite HL. apply in_elt.
  - pose proof (pulled_sorted self (Some C) n tbl) as Hs.
    rewrite HL in Hs. apply sorted_last_greatest in Hs. rewrite <- HL in Hs.
    rewrite Forall_forall in *. intros d Hd. split; [now apply Hafter |].
    specialize (Hs d Hd). unfold key_le in Hs.
    now rewrite order_compare_key in Hs.
Qed.

(** X3.  On a table of safe integers, every non-empty batch a caller
    receives from a pull from a checkpoint with a truthy [modified]
    comes with a checkpoint strictly beyond that one, and each of its
    documents lies strictly after the checkpoint passed in and not
    after the one received. *)
Theorem pull_progress (self : SupabaseReplication)
  (C : SupabaseReplicationCheckpoint) (batchSize : nat) (st s : remote)
  (ev : ChangeEvent) :
  truthy (modified C) = true ->
  safe_numbers (rows st) ->
  pull_received self (Some C) batchSize st = (Returned ev, s) ->
  documents ev <> [] ->
  exists C',
    checkpoint ev = Some C'
    /\ checkpoint_compare C C' = Lt
    /\ Forall (fun d =>
                 checkpoint_compare (rowToCheckpoint self d) C = Gt
                 /\ checkpoint_compare (rowToCheckpoint self d) C' <> Gt)
         (documents ev).
Proof.
  intros HC Hsafe. rewrite pull_received_safe, pullHandler_reply by assumption.
  destruct (error (fst (run_select (pull_query self (Some C) batchSize) st)))
    eqn:E; [discriminate |].
  intros H. inversion H; subst. clear H.
  rewrite documents_pull_event, (run_select_data _ _ E), pull_query_rows.
  fold (pulled self (Some C) batchSize (rows st)).
  now apply pulled_progress.
Qed.

Lemma pull_progress_witness :
  truthy (modified (rowToCheckpoint humans alice)) = true
  /\ safe_numbers [human3; alice; human2]
  /\ exists C',
      Some (rowToCheckpoint humans human3) = Some C'
      /\ checkpoint_compare (rowToCheckpoint humans alice) C' = Lt.
Proof.
  assert (N : safe_numbers [human3; alice; human2]) by (repeat constructor).
  split; [reflexivity |]. split; [exact N |].
  destruct (pull_progress humans (rowToCheckpoint humans alice) 2
              (remote_of [human3; alice; human2])
              (remote_of [human3; alice; human2])
              {| checkpoint := Some (rowToCheckpoint humans human3);
                 documents := [human2; human3] |}
              eq_refl N eq_refl) as [C' [H1 [H2 _]]]; [discriminate |].
  exists C'. split; assumption.
Defined.

(** X4.  The filter of a pull and its ordering agree.  For a row of
    safe integers with a truthy last-modified value, the request built
    from the checkpoint the client derives from the row selects exactly
    the rows ordered strictly behind it: not the row itself, and every
    row it rejects comes strictly before every row it selects.  When
    the last-modified value of the row is falsy, the request built from
    its checkpoint selects every row, the row itself included. *)
Theorem checkpoint_filter_matches_order (self : SupabaseReplication) (a : Row) :
  safe_row a = true ->
  let C := rowToCheckpoint self (decode_row a) in
  (truthy (get a (lastModifiedFieldName self)) = true ->
   (forall b, selects self (Some C) b = true
              <-> order_compare (key_columns self) a b = Lt)
   /\ selects self (Some C) a = false
   /\ (forall b b', selects self (Some C) b = true ->
                    selects self (Some C) b' = false ->
                    order_compare (key_columns self) b' b = Lt))
  /\ (truthy (get a (lastModifiedFieldName self)) = false ->
      forall b, selects self (Some C) b = true).
Proof.
  intros Hsafe C. unfold C. rewrite (decode_row_safe a Hsafe). clear C.
  assert (Hsel : truthy (get a (lastModifiedFieldName self)) = true ->
                 forall b,
                   selects self (Some (rowToCheckpoint self a)) b
                   = match order_compare (key_columns self) a b with
                     | Lt => true
                     | _ => false
                     end).
  { intros T b. rewrite selects_spec.
    change (modified (rowToCheckpoint self a))
      with (get a (lastModifiedFieldName self)).
    rewrite T, after_checkpoint_compare, !order_compare_key.
    rewrite (checkpoint_compare_antisym (rowToCheckpoint self a)
               (rowToCheckpoint self b)).
    destruct (checkpoint_compare (rowToCheckpoint self a) (rowToCheckpoint self b));
      reflexivity. }
  split.
  - intros T. split; [| split].
    + intros b. rewrite (Hsel T).
      destruct (order_compare (key_columns self) a b); split; congruence.
    + rewrite (Hsel T), order_compare_key, checkpoint_compare_refl. reflexivity.
    + intros b b'. rewrite !(Hsel T), !order_compare_key. intros Hb Hb'.
      destruct (checkpoint_compare (rowToCheckpoint self a) (rowToCheckpoint self b))
        eqn:Eb; try discriminate.
      destruct (checkpoint_compare (rowToCheckpoint self b') (rowToCheckpoint self b))
        eqn:E; auto; exfalso.
      * apply checkpoint_compare_eq in E. rewrite E, Eb in Hb'. discriminate.
      * rewrite (checkpoint_compare_antisym (rowToCheckpoint self b)
                   (rowToCheckpoint self b')) in E.
        assert (E' : checkpoint_compare (rowToCheckpoint self b)
                       (rowToCheckpoint self b') = Lt)
          by (destruct (checkpoint_compare (rowToCheckpoint self b)
                          (rowToCheckpoint self b')); simpl in E; congruence).
        rewrite (checkpoint_compare_trans _ _ _ Eb E') in Hb'. discriminate.
  - intros T b. rewrite selects_spec.
    change (modified (rowToCheckpoint self a))
      with (get a (lastModifiedFieldName self)).
    now rewrite T.
Qed.

Lemma checkpoint_filter_matches_order_witness :
  safe_row human2 = true
  /\ selects humans (Some (rowToCheckpoint humans (decode_row human2))) human3 = true
  /\ selects humans (Some (rowToCheckpoint humans (decode_row human2))) human2 = false
  /\ selects humans (Some (rowToCheckpoint humans (decode_row human2))) alice = false.
Proof.
  pose proof (checkpoint_filter_matches_order humans human2 eq_refl) as H.
  cbv zeta in H. destruct H as [H _].
  destruct (H eq_refl) as [H1 [H2 _]].
  split; [reflexivity |]. split; [| split; [exact H2 |]].
  - apply H1. reflexivity.
  - destruct (selects humans (Some (rowToCheckpoint humans (decode_row human2))) alice)
      eqn:E; [| reflexivity].
    apply H1 in E. discriminate E.
Defined.

Section Batches.

Variable self : SupabaseReplication.

Lemma firstn_add (n m : nat) (l : list Row) :
  firstn (n + m) l = firstn n l ++ firstn m (skipn n l).
Proof.
  revert l. induction n as [| n IH]; intros [| x l]; simpl; auto.
  - now rewrite firstn_nil.
  - now rewrite IH.
Qed.

Lemma last_app_nonempty (l1 l2 : list Row) :
  l2 <> [] -> last (l1 ++ l2) [] = last l2 [].
Proof.
  intros H. destruct (exists_last H) as [front [x ->]].
  now rewrite app_assoc, !last_last.
Qed.

Lemma pull_event_nonempty (lc : option SupabaseReplicationCheckpoint)
  (l : list Row) :
  l <> [] ->
  checkpoint (pull_event self lc l) = Some (rowToCheckpoint self (last l [])).
Proof. destruct l; [congruence | reflexivity]. Qed.

Lemma pull_event_app (lc : option SupabaseReplicationCheckpoint)
  (b1 b2 : list Row) :
  checkpoint (pull_event self lc (b1 ++ b2))
  = checkpoint (pull_event self (checkpoint (pull_event self lc b1)) b2).
Proof.
  destruct b2 as [| y b2].
  - rewrite app_nil_r. reflexivity.
  - rewrite !pull_event_nonempty; try discriminate.
    + now rewrite last_app_nonempty.
    + now destruct b1.
Qed.

(** The rows a pull selects, in order, and where the next pull resumes. *)
Lemma pulled_then (lc : option SupabaseReplicationCheckpoint) (tbl : list Row) :
  stamped self tbl ->
  distinct_keys self tbl ->
  exists ahead,
    (forall k, pulled self lc k tbl = firstn k ahead)
    /\ forall n m,
         pulled self (checkpoint (pull_event self lc (firstn n ahead))) m tbl
         = firstn m (skipn n ahead).
Proof.
  intros Hstamp Hd.
  pose proof (sorted_split self (selects self lc) _
                (sort_by_key_sorted self tbl) (selects_monotone self lc)) as HT.
  set (seen := filter (fun r => negb (selects self lc r))
                 (sort_by (key_columns self) tbl)) in *.
  set (ahead := filter (selects self lc) (sort_by (key_columns self) tbl)) in *.
  assert (HA : forall r, In r seen -> selects self lc r = false).
  { intros r Hr. apply filter_In in Hr as [_ Hr]. now apply negb_true_iff. }
  assert (HS : forall r, In r ahead -> selects self lc r = true).
  { intros r Hr. now apply filter_In in Hr. }
  assert (Hs : StronglySorted (key_lt self) (seen ++ ahead)).
  { rewrite <- HT. now apply sort_by_key_strict. }
  exists ahead. split.
  - intros k. now apply (pulled_split self lc k tbl seen ahead).
  - intros n m.
    destruct (firstn n ahead) as [| b bs] eqn:Hb.
    + simpl. rewrite (pulled_split self lc m tbl seen ahead HT HA HS).
      destruct n as [| n]; [reflexivity |].
      destruct ahead; [now rewrite skipn_nil | discriminate].
    + destruct (@exists_last _ (b :: bs)) as [front [L HL]]; [discriminate |].
      assert (Hsplit : ahead = (front ++ [L]) ++ skipn n ahead).
      { rewrite <- HL, <- Hb. symmetry. apply firstn_skipn. }
      assert (HLin : In L tbl).
      { eapply Permutation_in; [apply sort_by_perm |]. rewrite HT.
        apply in_or_app. right. rewrite Hsplit.
        apply in_or_app. left. apply in_elt. }
      assert (HLT : truthy (get L (lastModifiedFieldName self)) = true).
      { unfold stamped in Hstamp. rewrite Forall_forall in Hstamp. auto. }
      assert (Hs' : StronglySorted (key_lt self)
                      ((seen ++ front) ++ L :: skipn n ahead)).
      { rewrite <- app_assoc.
        replace (front ++ L :: skipn n ahead)
          with ((front ++ [L]) ++ skipn n ahead)
          by (rewrite <- app_assoc; reflexivity).
        now rewrite <- Hsplit. }
      destruct (selects_around self _ _ _ Hs' HLT) as [HA' HS'].
      rewrite pull_event_nonempty by discriminate. rewrite HL, last_last.
      apply (pulled_split self _ m tbl ((seen ++ front) ++ [L]) (skipn n ahead));
        auto.
      rewrite HT. rewrite <- !app_assoc. f_equal.
      rewrite app_assoc. exact Hsplit.
Qed.

End Batches.

(** X5.  Batch boundaries do not matter: on a table with truthy
    last-modified values, distinct keys and safe integers, a pull of
    [n] rows followed by a pull of [m] rows from the checkpoint
    received delivers the documents, and ends at the checkpoint, of one
    pull of [n + m] rows. *)
Theorem pull_batches_compose (self : SupabaseReplication)
  (lastCheckpoint : option SupabaseReplicationCheckpoint) (n m : nat)
  (st : remote) :
  reliable st ->
  stamped self (rows st) ->
  distinct_keys self (rows st) ->
  safe_numbers (rows st) ->
  exists ev1 ev2 ev,
    pull_received self lastCheckpoint n st = (Returned ev1, after_request st)
    /\ pull_received self (checkpoint ev1) m (after_request st)
       = (Returned ev2, after_request (after_request st))
    /\ pull_received self lastCheckpoint (n + m) st
       = (Returned ev, after_request st)
    /\ documents ev = documents ev1 ++ documents ev2
    /\ checkpoint ev = checkpoint ev2.
Proof.
  intros Hst Hstamp Hd Hsafe.
  destruct (pulled_then self lastCheckpoint (rows st) Hstamp Hd)
    as [ahead [H1 H2]].
  do 3 eexists.
  split; [apply pull_received_answers; [now apply reliable_answers | assumption] |].
  split; [apply pull_received_answers;
          [now apply reliable_answers, reliable_after_request
          | now rewrite rows_after_request] |].
  split; [apply pull_received_answers; [now apply reliable_answers | assumption] |].
  rewrite !documents_pull_event, rows_after_request, !H1, H2.
  split; [apply firstn_add |].
  rewrite firstn_add. apply pull_event_app.
Qed.

Lemma pull_batches_compose_witness :
  reliable (remote_of [human3; alice; human2])
  /\ stamped humans [human3; alice; human2]
  /\ distinct_keys humans [human3; alice; human2]
  /\ safe_numbers [human3; alice; human2]
  /\ exists ev1 ev2 ev,
      pull_received humans None 1 (remote_of [human3; alice; human2])
      = (Returned ev1, after_request (remote_of [human3; alice; human2]))
      /\ pull_received humans (checkpoint ev1) 1
           (after_request (remote_of [human3; alice; human2]))
         = (Returned ev2,
            after_request (after_request (remote_of [human3; alice; human2])))
      /\ pull_received humans None (1 + 1) (remote_of [human3; alice; human2])
         = (Returned ev, after_request (remote_of [human3; alice; human2]))
      /\ documents ev = documents ev1 ++ documents ev2
      /\ checkpoint ev = checkpoint ev2.
Proof.
  assert (R : reliable (remote_of [human3; alice; human2])) by constructor.
  assert (S : stamped humans [human3; alice; human2]) by (repeat constructor).
  assert (D : distinct_keys humans [human3; alice; human2]).
  { repeat constructor; simpl; intuition discriminate. }
  assert (N : safe_numbers [human3; alice; human2]) by (repeat constructor).
  split; [exact R |]. split; [exact S |]. split; [exact D |]. split; [exact N |].
  exact (pull_batches_compose humans None 1 1
           (remote_of [human3; alice; human2]) R S D N).
Defined.

(** X6.  A short batch means the tip is reached: on such a table, when
    the caller of a pull receives fewer documents than the batch size,
    the next pull from the checkpoint received, of any size, hands back
    no document and that same checkpoint. *)
Theorem pull_short_batch_is_last (self : SupabaseReplication)
  (lastCheckpoint : option SupabaseReplicationCheckpoint) (n m : nat)
  (st s : remote) (ev : ChangeEvent) :
  reliable st ->
  stamped self (rows st) ->
  distinct_keys self (rows st) ->
  safe_numbers (rows st) ->
  pull_received self lastCheckpoint n st = (Returned ev, s) ->
  length (documents ev) < n ->
  pull_received self (checkpoint ev) m s
  = (Returned {| checkpoint := checkpoint ev; documents := [] |}, after_request s).
Proof.
  intros Hst Hstamp Hd Hsafe.
  destruct (pulled_then self lastCheckpoint (rows st) Hstamp Hd)
    as [ahead [H1 H2]].
  rewrite pull_received_answers by (assumption || now apply reliable_answers).
  intros H. inversion H; subst. clear H.
  intros Hshort. rewrite documents_pull_event in Hshort.
  rewrite pull_received_answers
    by (now apply reliable_answers, reliable_after_request
        || now rewrite rows_after_request).
  rewrite rows_after_request. rewrite (H1 n) in *. rewrite H2.
  rewrite length_firstn in Hshort.
  rewrite skipn_all2 by lia. now rewrite firstn_nil.
Qed.

Lemma pull_short_batch_is_last_witness :
  reliable (remote_of [human3; alice; human2])
  /\ safe_numbers [human3; alice; human2]
  /\ length [human2; human3] < 5
  /\ pull_received humans (Some (rowToCheckpoint humans human3)) 5
       (remote_of [human3; alice; human2])
     = (Returned {| checkpoint := Some (rowToCheckpoint humans human3);
                    documents := [] |},
        remote_of [human3; alice; human2]).
Proof.
  assert (R : reliable (remote_of [human3; alice; human2])) by constructor.
  assert (S : stamped humans [human3; alice; human2]) by (repeat constructor).
  assert (D : distinct_keys humans [human3; alice; human2]).
  { repeat constructor; simpl; intuition discriminate. }
  assert (N : safe_numbers [human3; alice; human2]) by (repeat constructor).
  split; [exact R |]. split; [exact N |]. split; [simpl; lia |].
  exact (pull_short_batch_is_last humans (Some (rowToCheckpoint humans alice)) 5 5
           (remote_of [human3; alice; human2]) (remote_of [human3; alice; human2])
           {| checkpoint := Some (rowToCheckpoint humans human3);
              documents := [human2; human3] |}
           R S D N eq_refl (le_n_S _ _ (le_S _ _ (le_S _ _ (le_n 2))))).
Defined.

(** ** Pushing *)

Lemma fetchByPrimaryKey_reply (self : SupabaseReplication) (key : value)
  (st : remote) :
  let q := sel_limit_to
             (sel_eq (from_select (table self)) (primaryKey self) key) 1 in
  fetchByPrimaryKey self key st
  = match error (fst (run_select q st)) with
    | Some e => (Threw (PgError e), snd (run_select q st))
    | None =>
        if negb (length (data (fst (run_select q st))) =? 1)%nat
        then (Threw (JsError "No row with given primary key"),
              snd (run_select q st))
        else (Returned (nth 0 (data (fst (run_select q st))) []),
              snd (run_select q st))
    end.
Proof.
  intros q. unfold fetchByPrimaryKey, bind, await_select. fold q.
  destruct (run_select q st) as [r st']; simpl.
  destruct (error r); auto.
  destruct (negb (length (data r) =? 1)%nat); reflexivity.
Qed.

Lemma stored_some (self : SupabaseReplication) (key : value) (tbl : list Row)
  (r : Row) :
  stored self key tbl = Some r -> In r tbl /\ get r (primaryKey self) = key.
Proof.
  unfold stored. intros H. apply find_some in H as [H1 H2].
  split; [exact H1 | now apply value_eqb_eq].
Qed.

Lemma stored_none (self : SupabaseReplication) (key : value) (tbl : list Row) :
  stored self key tbl = None <->
  forall r, In r tbl -> get r (primaryKey self) <> key.
Proof.
  unfold stored. split.
  - intros H r Hr E. pose proof (find_none _ _ H r Hr) as F. simpl in F.
    apply value_eqb_eq in E. congruence.
  - intros H. destruct (find _ tbl) as [r |] eqn:F; auto.
    apply find_some in F as [F1 F2]. apply value_eqb_eq in F2.
    exfalso. exact (H r F1 F2).
Qed.

(** X7.  [fetchByPrimaryKey] only reads.  When its request goes through
    it returns a row exactly when the table holds one under the key,
    the row returned is a row of the table with that key, and several
    rows under one key are no failure; only when no row has the key
    does it throw "No row with given primary key".  A failed request is
    thrown as it is. *)
Theorem fetch_by_primary_key_outcomes (self : SupabaseReplication) (key : value)
  (st : remote) :
  rows (snd (fetchByPrimaryKey self key st)) = rows st
  /\ (forall e, hd_error (faults st) = Some (Some e) ->
                fst (fetchByPrimaryKey self key st) = Threw (PgError e))
  /\ (answers st ->
      (forall d s,
          fetchByPrimaryKey self key st = (Returned d, s) ->
          In d (rows st) /\ get d (primaryKey self) = key)
      /\ ((exists r, In r (rows st) /\ get r (primaryKey self) = key) ->
          exists d, fetchByPrimaryKey self key st = (Returned d, after_request st))
      /\ ((forall r, In r (rows st) -> get r (primaryKey self) <> key) ->
          fetchByPrimaryKey self key st
          = (Threw (JsError "No row with given primary key"), after_request st))).
Proof.
  split; [| split].
  - rewrite fetchByPrimaryKey_reply.
    destruct (run_select_state
                (sel_limit_to
                   (sel_eq (from_select (table self)) (primaryKey self) key) 1) st)
      as [H _].
    destruct (error _); [exact H |].
    destruct (negb _); exact H.
  - intros e He. rewrite fetchByPrimaryKey_reply.
    rewrite (run_select_fault _ st e He). reflexivity.
  - intros Hst.
    destruct (stored self key (rows st)) as [cur |] eqn:Hcur.
    + rewrite (fetch_found self key st cur Hst Hcur).
      apply stored_some in Hcur as [H1 H2].
      split; [| split].
      * intros d s H. inversion H; subst. auto.
      * intros _. eauto.
      * intros H. exfalso. exact (H cur H1 H2).
    + rewrite (fetch_missing self key st Hst Hcur).
      split; [| split].
      * intros d s H. discriminate H.
      * intros [r [H1 H2]]. exfalso.
        apply (proj1 (stored_none self key (rows st)) Hcur r H1 H2).
      * reflexivity.
Qed.

Lemma fetch_by_primary_key_outcomes_witness :
  answers {| rows := [bob1; bob2]; pkey := "id"; faults := [] |}
  /\ (exists r, In r [bob1; bob2] /\ get r (primaryKey by_uid) = VString "a")
  /\ exists d,
      fetchByPrimaryKey by_uid (VString "a")
        {| rows := [bob1; bob2]; pkey := "id"; faults := [] |}
      = (Returned d, {| rows := [bob1; bob2]; pkey := "id"; faults := [] |}).
Proof.
  assert (E : exists r, In r [bob1; bob2] /\ get r (primaryKey by_uid) = VString "a").
  { exists bob2. split; [right; left; reflexivity | reflexivity]. }
  split; [reflexivity |]. split; [exact E |].
  exact (proj1 (proj2 (proj2 (proj2 (fetch_by_primary_key_outcomes by_uid (VString "a")
           {| rows := [bob1; bob2]; pkey := "id"; faults := [] |})) eq_refl)) E).
Defined.

(** X8.  [pushHandler] takes batches of exactly one row: for any other
    batch, the empty one included, it throws "Invalid batch size" and
    sends nothing to the remote side. *)
Theorem push_batch_of_one (self : SupabaseReplication) (rows : list PushRow)
  (st : remote) :
  length rows <> 1 ->
  pushHandler self rows st = (Threw (JsError "Invalid batch size"), st).
Proof.
  destruct rows as [| r [| r' rows]]; simpl; intros H;
    [reflexivity | congruence | reflexivity].
Qed.

Lemma push_batch_of_one_witness :
  length [insertion alice; insertion human2] <> 1
  /\ pushHandler humans [insertion alice; insertion human2] (remote_of [])
     = (Threw (JsError "Invalid batch size"), remote_of []).
Proof.
  assert (H : length [insertion alice; insertion human2] <> 1) by discriminate.
  split; [exact H |].
  exact (push_batch_of_one humans [insertion alice; insertion human2]
           (remote_of []) H).
Defined.

Lemma pushOne_insert_answers (self : SupabaseReplication) (doc : Row)
  (st : remote) :
  answers st ->
  pushOne self (insertion doc) st
  = if existsb (fun r => value_eqb (get r (pkey st)) (get doc (pkey st))) (rows st)
    then conflict_result self (get doc (primaryKey self)) (after_request st)
    else (Returned [], with_rows (after_request st) (rows st ++ [doc])).
Proof.
  intros Hst.
  change (pushOne self (insertion doc) st) with (handleInsertion self doc st).
  rewrite handleInsertion_reply, (run_insert_answers self doc st Hst).
  destruct (existsb _ (rows st)); reflexivity.
Qed.

(** X10.  An insert rejected for a duplicate key while no row is stored
    under the replication's primary key (the table's constraint is on
    another column) is no conflict result: the push throws "No row with
    given primary key", and the table is as before. *)
Theorem insert_conflict_without_row (self : SupabaseReplication) (doc : Row)
  (st : remote) :
  reliable st ->
  existsb (fun r => value_eqb (get r (pkey st)) (get doc (pkey st))) (rows st) = true ->
  stored self (get doc (primaryKey self)) (rows st) = None ->
  pushOne self (insertion doc) st
  = (Threw (JsError "No row with given primary key"),
     after_request (after_request st))
  /\ rows (after_request (after_request st)) = rows st.
Proof.
  intros Hst Hdup Hnone.
  rewrite pushOne_insert_answers by now apply reliable_answers.
  rewrite Hdup. split; [| now rewrite !rows_after_request].
  unfold conflict_result, bind.
  rewrite fetch_missing; auto.
  - now apply reliable_answers, reliable_after_request.
  - now rewrite rows_after_request.
Qed.

Lemma insert_conflict_without_row_witness :
  reliable {| rows := [bob1]; pkey := "id"; faults := [] |}
  /\ pushOne by_uid (insertion [("id", VNumber 1); ("uid", VString "z")])
       {| rows := [bob1]; pkey := "id"; faults := [] |}
     = (Threw (JsError "No row with given primary key"),
        {| rows := [bob1]; pkey := "id"; faults := [] |}).
Proof.
  assert (R : reliable {| rows := [bob1]; pkey := "id"; faults := [] |})
    by constructor.
  split; [exact R |].
  exact (proj1 (insert_conflict_without_row by_uid
                  [("id", VNumber 1); ("uid", VString "z")]
                  {| rows := [bob1]; pkey := "id"; faults := [] |}
                  R eq_refl eq_refl)).
Defined.

(** X11.  On the update path every error of the request is fatal, the
    duplicate-key error included: the push throws it as it is, fetches
    nothing, and the table is as before.  (On the insert path the
    duplicate-key error becomes a conflict result.) *)
Theorem push_update_error_is_thrown (self : SupabaseReplication) (row : PushRow)
  (assumed : Row) (st : remote) (e : PostgrestError) :
  assumedMasterState row = Some assumed ->
  custom_updateHandler self = None ->
  supported assumed = true ->
  let q := conditional_update self (newDocumentState row) assumed in
  error (fst (run_update q st)) = Some e ->
  pushOne self row st = (Threw (PgError e), snd (run_update q st))
  /\ rows (snd (run_update q st)) = rows st
  /\ faults (snd (run_update q st)) = tl (faults st).
Proof.
  intros Ha Hc Hs q He.
  rewrite (pushOne_update self row assumed st Ha Hc Hs). fold q. rewrite He.
  split; [reflexivity |].
  revert He. unfold run_update, next_fault.
  destruct (faults st) as [| [e' |] fs] eqn:F; simpl;
    try (destruct (distinct_on _ _); simpl; try discriminate);
    intros _; rewrite ?F; auto.
Qed.

Lemma push_update_error_is_thrown_witness :
  error (fst (run_update
                (conditional_update humans
                   [("id", VString "2")] [("id", VString "1")])
                (remote_of [alice; human2])))
  = Some duplicate_key
  /\ pushOne humans
       {| newDocumentState := [("id", VString "2")];
          assumedMasterState := Some [("id", VString "1")] |}
       (remote_of [alice; human2])
     = (Threw (PgError duplicate_key), remote_of [alice; human2]).
Proof.
  split; [reflexivity |].
  exact (proj1 (push_update_error_is_thrown humans
                  {| newDocumentState := [("id", VString "2")];
                     assumedMasterState := Some [("id", VString "1")] |}
                  [("id", VString "1")] (remote_of [alice; human2]) duplicate_key
                  eq_refl eq_refl eq_refl eq_refl)).
Defined.

(** X12.  An update handler supplied in the options replaces the
    default one altogether: the outcome of the push is decided by the
    handler alone (applied: the empty result; not applied: the row
    fetched by primary key; thrown: the same exception), and assumed
    fields of a type the default handler rejects raise no error of
    their own. *)
Theorem custom_update_handler_decides (self : SupabaseReplication) (row : PushRow)
  (assumed : Row) (h : PushRow -> M bool) (st : remote) :
  assumedMasterState row = Some assumed ->
  custom_updateHandler self = Some h ->
  pushOne self row st
  = match h row st with
    | (Returned true, s) => (Returned [], s)
    | (Returned false, s) =>
        conflict_result self (get (newDocumentState row) (primaryKey self)) s
    | (Threw e, s) => (Threw e, s)
    end
  /\ (supported assumed = false ->
      forall s, h row st = (Returned true, s) ->
                pushOne self row st = (Returned [], s)).
Proof.
  intros Ha Hc.
  assert (E : pushOne self row st
              = match h row st with
                | (Returned true, s) => (Returned [], s)
                | (Returned false, s) =>
                    conflict_result self
                      (get (newDocumentState row) (primaryKey self)) s
                | (Threw e, s) => (Threw e, s)
                end).
  { unfold pushOne, pushHandler. rewrite Ha. unfold handleUpdate.
    unfold custom_updateHandler in Hc. rewrite Hc. unfold bind.
    destruct (h row st) as [[[|] | e] s]; reflexivity. }
  split; [exact E |].
  intros _ s Hs. rewrite E, Hs. reflexivity.
Qed.

Lemma custom_update_handler_decides_witness :
  pushOne
    (new_SupabaseReplication
       {| replicationIdentifier := "test";
          collection_name := "humans";
          collection_primaryPath := "id";
          opt_table := None;
          opt_primaryKey := None;
          opt_deletedField := None;
          pull := None;
          push := Some {| updateHandler := Some (fun _ => ret true) |};
          opt_live := None;
          opt_autoStart := None |})
    {| newDocumentState := alice_aged_42;
       assumedMasterState := Some [("tags", VObject "[1,2]")] |}
    (remote_of [alice_aged_5])
  = (Returned [], remote_of [alice_aged_5]).
Proof.
  exact (proj2 (custom_update_handler_decides
                  (new_SupabaseReplication
                     {| replicationIdentifier := "test";
                        collection_name := "humans";
                        collection_primaryPath := "id";
                        opt_table := None;
                        opt_primaryKey := None;
                        opt_deletedField := None;
                        pull := None;
                        push := Some {| updateHandler := Some (fun _ => ret true) |};
                        opt_live := None;
                        opt_autoStart := None |})
                  {| newDocumentState := alice_aged_42;
                     assumedMasterState := Some [("tags", VObject "[1,2]")] |}
                  [("tags", VObject "[1,2]")] (fun _ => ret true)
                  (remote_of [alice_aged_5]) eq_refl eq_refl)
           eq_refl (remote_of [alice_aged_5]) eq_refl).
Defined.

Lemma add_conditions_app (good es : list (string * value)) (q : update_query) :
  supported good = true ->
  add_conditions (good ++ es) q
  = add_conditions es
      {| upd_from := upd_from q;
         upd_values := upd_values q;
         upd_filters := upd_filters q ++ map field_condition good |}.
Proof.
  revert q. induction good as [| [field v] good IH]; intros q H; simpl.
  - rewrite app_nil_r. now destruct q.
  - unfold supported in H. simpl in H. apply andb_true_iff in H as [Hv H].
    destruct v; simpl in *; try discriminate;
      rewrite IH by exact H; simpl; rewrite <- app_assoc; reflexivity.
Qed.

(** X13.  The default update handler goes through the assumed fields in
    their order and stops at the first one of an unsupported type: the
    error names the type of that field, whatever follows it, and no
    request is sent. *)
Theorem first_unsupported_field_is_reported (self : SupabaseReplication)
  (row : PushRow) (good rest : list (string * value)) (field : string)
  (v : value) (st : remote) :
  assumedMasterState row = Some (good ++ (field, v) :: rest) ->
  custom_updateHandler self = None ->
  supported good = true ->
  comparable v = false ->
  pushOne self row st
  = (Threw (JsError ("replicateSupabase: Unsupported field of type " ++ typeof v)),
     st).
Proof.
  intros Ha Hc Hg Hv.
  unfold pushOne, pushHandler. rewrite Ha, handleUpdate_default by assumption.
  unfold defaultUpdateHandler. rewrite Ha. unfold entries.
  rewrite add_conditions_app by assumption.
  destruct v; simpl in *; try discriminate; reflexivity.
Qed.

Lemma first_unsupported_field_is_reported_witness :
  supported [("id", VString "1")] = true
  /\ comparable VUndefined = false
  /\ pushOne humans
       {| newDocumentState := alice_aged_42;
          assumedMasterState :=
            Some ([("id", VString "1")]
                    ++ ("nick", VUndefined) :: [("tags", VObject "[]")]) |}
       (remote_of [alice_aged_5])
     = (Threw (JsError "replicateSupabase: Unsupported field of type undefined"),
        remote_of [alice_aged_5]).
Proof.
  split; [reflexivity |]. split; [reflexivity |].
  exact (first_unsupported_field_is_reported humans
           {| newDocumentState := alice_aged_42;
              assumedMasterState :=
                Some ([("id", VString "1")]
                        ++ ("nick", VUndefined) :: [("tags", VObject "[]")]) |}
           [("id", VString "1")] [("tags", VObject "[]")] "nick" VUndefined
           (remote_of [alice_aged_5]) eq_refl eq_refl eq_refl eq_refl).
Defined.

(** ** The constructor *)

Lemma or_string_nonempty (a : option string) (b : string) :
  b <> "" -> or_string a b <> "".
Proof.
  unfold or_string. destruct a as [s |]; auto.
  destruct (String.eqb_spec s ""); auto.
Qed.

Lemma or_string_cases (a : option string) (b : string) :
  (forall t, a = Some t -> t <> "" -> or_string a b = t)
  /\ (a = None \/ a = Some "" -> or_string a b = b).
Proof.
  unfold or_string. split.
  - intros t -> Ht. destruct (String.eqb_spec t ""); congruence.
  - intros [-> | ->]; reflexivity.
Qed.

(** X14.  The constructor resolves the four names with their defaults:
    the table, the primary key, the last-modified field and the deleted
    field are the option given when it is a non-empty string, and the
    default (the collection's name, its primary path, ["_modified"],
    ["_deleted"]) when the option is absent or the empty string; the
    last-modified field is the default also when there are no pull
    options.  No resolved name is empty when the collection's name and
    primary path are not.  [live] and [autoStart] are on unless set to
    false explicitly. *)
Theorem constructor_defaults (o : SupabaseReplicationOptions) :
  let self := new_SupabaseReplication o in
  (forall t, opt_table o = Some t -> t <> "" -> table self = t)
  /\ (opt_table o = None \/ opt_table o = Some "" -> table self = collection_name o)
  /\ (forall k, opt_primaryKey o = Some k -> k <> "" -> primaryKey self = k)
  /\ (opt_primaryKey o = None \/ opt_primaryKey o = Some "" ->
      primaryKey self = collection_primaryPath o)
  /\ (forall p f, pull o = Some p -> lastModifiedField p = Some f -> f <> "" ->
                  lastModifiedFieldName self = f)
  /\ (forall p, pull o = Some p ->
                lastModifiedField p = None \/ lastModifiedField p = Some "" ->
                lastModifiedFieldName self = "_modified")
  /\ (pull o = None -> lastModifiedFieldName self = "_modified")
  /\ (forall d, opt_deletedField o = Some d -> d <> "" -> deletedField self = d)
  /\ (opt_deletedField o = None \/ opt_deletedField o = Some "" ->
      deletedField self = "_deleted")
  /\ (collection_name o <> "" -> table self <> "")
  /\ (collection_primaryPath o <> "" -> primaryKey self <> "")
  /\ lastModifiedFieldName self <> ""
  /\ deletedField self <> ""
  /\ (live self = false <-> opt_live o = Some false)
  /\ (autoStart self = false <-> opt_autoStart o = Some false).
Proof.
  simpl.
  split; [apply or_string_cases |]. split; [apply or_string_cases |].
  split; [apply or_string_cases |]. split; [apply or_string_cases |].
  split; [intros p f -> Hf; now apply or_string_cases |].
  split; [intros p ->; apply or_string_cases |].
  split; [intros ->; reflexivity |].
  split; [apply or_string_cases |]. split; [apply or_string_cases |].
  split; [apply or_string_nonempty |]. split; [apply or_string_nonempty |].
  split; [apply or_string_nonempty; discriminate |].
  split; [apply or_string_nonempty; discriminate |].
  split.
  - destruct (opt_live o) as [[|] |]; simpl; split; congruence.
  - destruct (opt_autoStart o) as [[|] |]; simpl; split; congruence.
Qed.

Lemma constructor_defaults_witness :
  let self :=
    new_SupabaseReplication
      {| replicationIdentifier := "test";
         collection_name := "humans";
         collection_primaryPath := "id";
         opt_table := Some "people";
         opt_primaryKey := Some "";
         opt_deletedField := Some "removed";
         pull := Some {| realtimePostgresChanges := None;
                         lastModifiedField := Some "updated_at" |};
         push := None;
         opt_live := Some false;
         opt_autoStart := None |} in
  table self = "people"
  /\ primaryKey self = "id"
  /\ lastModifiedFieldName self = "updated_at"
  /\ deletedField self = "removed"
  /\ live self = false.
Proof.
  cbv zeta.
  destruct (constructor_defaults
              {| replicationIdentifier := "test";
                 collection_name := "humans";
                 collection_primaryPath := "id";
                 opt_table := Some "people";
                 opt_primaryKey := Some "";
                 opt_deletedField := Some "removed";
                 pull := Some {| realtimePostgresChanges := None;
                                 lastModifiedField := Some "updated_at" |};
                 push := None;
                 opt_live := Some false;
                 opt_autoStart := None |})
    as (Ht & _ & _ & Hk & Hm & _ & _ & Hd & _ & _ & _ & _ & _ & Hl & _).
  split; [apply Ht; [reflexivity | discriminate] |].
  split; [apply Hk; right; reflexivity |].
  split; [apply (Hm _ _ eq_refl eq_refl); discriminate |].
  split; [apply Hd; [reflexivity | discriminate] |].
  apply Hl. reflexivity.
Defined.

(** ** The realtime relay *)

Lemma start_disabled (self : SupabaseReplication) (st : relay) :
  live self = false
  \/ pull (options self) = None
  \/ (exists p, pull (options self) = Some p
                /\ realtimePostgresChanges p = Some false) ->
  start self st = st.
Proof.
  unfold start. intros [H | [H | [p [H1 H2]]]].
  - now rewrite H.
  - rewrite H. now rewrite andb_false_r.
  - rewrite H1, H2. now rewrite andb_false_r.
Qed.

Lemma start_enabled (self : SupabaseReplication) (p : PullOptions) (st : relay) :
  live self = true ->
  pull (options self) = Some p ->
  realtimePostgresChanges p <> Some false ->
  start self st = watchPostgresChanges self st.
Proof.
  unfold start. intros H1 H2 H3. rewrite H1, H2.
  destruct (realtimePostgresChanges p) as [[|] |]; simpl; congruence.
Qed.

(** X15.  [start] opens no channel when the replication is not live,
    has no pull options, or has [realtimePostgresChanges] set to false:
    from a state without a joined channel, no sequence of starts,
    cancels and change notifications publishes anything or joins a
    channel. *)
Theorem relay_disabled_never_publishes (self : SupabaseReplication)
  (trace : list action) (st : relay) :
  live self = false
  \/ pull (options self) = None
  \/ (exists p, pull (options self) = Some p
                /\ realtimePostgresChanges p = Some false) ->
  quiet st ->
  realtimeChanges (run self st trace) = realtimeChanges st
  /\ quiet (run self st trace)
  /\ length (channels (run self st trace)) = length (channels st).
Proof.
  intros Hoff. revert st. unfold run.
  induction trace as [| a trace IH]; intros st Hq; simpl; auto.
  assert (Hstep : realtimeChanges (step self st a) = realtimeChanges st
                  /\ quiet (step self st a)
                  /\ length (channels (step self st a)) = length (channels st)).
  { destruct a as [| | p]; simpl.
    - rewrite start_disabled by assumption. auto.
    - destruct (cancel_quiet self st Hq) as [Hq' E]. repeat split; auto.
      unfold cancel. destruct (realtimeChannel st) as [i |]; simpl; auto.
      clear. revert i. induction (channels st) as [| c chs IHc]; intros [| i];
        simpl; auto.
    - repeat split; auto. now apply deliver_quiet. }
  destruct Hstep as (E1 & Hq' & E2).
  destruct (IH _ Hq') as (E3 & Hq'' & E4).
  rewrite E3, E4. auto.
Qed.

Lemma relay_disabled_never_publishes_witness :
  realtimeChanges
    (run (new_SupabaseReplication
            {| replicationIdentifier := "test";
               collection_name := "humans";
               collection_primaryPath := "id";
               opt_table := None;
               opt_primaryKey := None;
               opt_deletedField := None;
               pull := Some {| realtimePostgresChanges := Some false;
                               lastModifiedField := None |};
               push := None;
               opt_live := None;
               opt_autoStart := None |})
         relay_init
         [Start; Notify {| eventType := "INSERT"; new := Some alice |}])
  = [].
Proof.
  refine (proj1 (relay_disabled_never_publishes _ _ relay_init _ _)).
  - right. right.
    exists {| realtimePostgresChanges := Some false; lastModifiedField := None |}.
    split; reflexivity.
  - constructor.
Defined.

Lemma on_postgres_changes_qualifying (self : SupabaseReplication) (p : Payload)
  (sink : list ChangeEvent) :
  on_postgres_changes self p sink = sink ++ map (relayed self) (qualifying p).
Proof.
  unfold on_postgres_changes, qualifying.
  destruct (eventType p =? "DELETE"); simpl; [now rewrite app_nil_r |].
  destruct (new p); simpl; auto. now rewrite app_nil_r.
Qed.

Lemma deliver_single (self : SupabaseReplication) (p : Payload) (st : relay)
  (chs : list bool) :
  Forall (fun joined => joined = false) chs ->
  channels st = chs ++ [true] ->
  realtimeChanges (deliver self p st)
  = realtimeChanges st ++ map (relayed self) (qualifying p).
Proof.
  intros Hq Hc. unfold deliver; simpl. rewrite Hc.
  generalize (realtimeChanges st). clear Hc.
  induction Hq as [| c chs Hc Hs IH]; intros sink; simpl.
  - apply on_postgres_changes_qualifying.
  - subst c. apply IH.
Qed.

Lemma notifications_single (self : SupabaseReplication) (ps : list Payload)
  (st : relay) (chs : list bool) :
  Forall (fun joined => joined = false) chs ->
  channels st = chs ++ [true] ->
  realtimeChanges (run self st (map Notify ps))
  = realtimeChanges st ++ map (relayed self) (flat_map qualifying ps).
Proof.
  intros Hq. revert st. unfold run.
  induction ps as [| p ps IH]; intros st Hc; simpl.
  - now rewrite app_nil_r.
  - rewrite IH by exact Hc.
    rewrite (deliver_single self p st chs Hq Hc), map_app, app_assoc.
    reflexivity.
Qed.

(** X16.  Once started with the relay enabled, from a state without a
    joined channel, the notifications are published in the order they
    arrive, one item for each notification that is no DELETE and
    carries a new row, behind what the stream held before; the others
    leave no trace. *)
Theorem relay_publishes_in_order (self : SupabaseReplication) (p : PullOptions)
  (ps : list Payload) (st : relay) :
  live self = true ->
  pull (options self) = Some p ->
  realtimePostgresChanges p <> Some false ->
  quiet st ->
  realtimeChanges (run self (start self st) (map Notify ps))
  = realtimeChanges st ++ map (relayed self) (flat_map qualifying ps).
Proof.
  intros H1 H2 H3 Hq.
  rewrite (start_enabled self p st H1 H2 H3).
  exact (notifications_single self ps (watchPostgresChanges self st)
           (channels st) Hq eq_refl).
Qed.

Lemma relay_publishes_in_order_witness :
  realtimeChanges
    (run humans (start humans relay_init)
       (map Notify
          [ {| eventType := "INSERT"; new := Some human2 |};
            {| eventType := "DELETE"; new := Some alice |};
            {| eventType := "UPDATE"; new := Some alice |} ]))
  = [relayed humans human2; relayed humans alice].
Proof.
  exact (relay_publishes_in_order humans
           {| realtimePostgresChanges := None; lastModifiedField := None |}
           [ {| eventType := "INSERT"; new := Some human2 |};
             {| eventType := "DELETE"; new := Some alice |};
             {| eventType := "UPDATE"; new := Some alice |} ]
           relay_init eq_refl eq_refl ltac:(discriminate) (Forall_nil _)).
Defined.

Lemma leave_idempotent (i : nat) (chs : list bool) :
  leave i (leave i chs) = leave i chs.
Proof.
  revert i. induction chs as [| c chs IH]; intros [| i]; simpl; auto.
  now rewrite IH.
Qed.

Lemma leave_others (i j : nat) (chs : list bool) :
  j <> i -> nth_error (leave i chs) j = nth_error chs j.
Proof.
  revert i j. induction chs as [| c chs IH]; intros [| i] [| j] H; simpl; auto;
    try congruence.
Qed.

(** X17.  [cancel] unsubscribes the channel kept in the object and
    nothing else.  With a channel kept: that channel is not joined
    afterwards, every other channel is as it was, the stream and the
    reference to the channel are kept, and a second [cancel] changes
    nothing.  Without one (no [start] has opened a channel) [cancel]
    changes nothing at all. *)
Theorem cancel_leaves_kept_channel_only (self : SupabaseReplication) (st : relay)
  (i : nat) :
  realtimeChannel st = Some i ->
  nth_error (channels (cancel self st)) i <> Some true
  /\ (forall j, j <> i ->
                nth_error (channels (cancel self st)) j
                = nth_error (channels st) j)
  /\ length (channels (cancel self st)) = length (channels st)
  /\ realtimeChanges (cancel self st) = realtimeChanges st
  /\ realtimeChannel (cancel self st) = Some i
  /\ cancel self (cancel self st) = cancel self st
  /\ (forall st0, realtimeChannel st0 = None -> cancel self st0 = st0).
Proof.
  intros E. unfold cancel. rewrite E. simpl. rewrite ?E.
  split; [apply leave_left |].
  split; [intros j Hj; now apply leave_others |].
  split; [| split; [reflexivity |]; split; [reflexivity |]; split].
  - clear. revert i. induction (channels st) as [| c chs IH]; intros [| i];
      simpl; auto.
  - now rewrite leave_idempotent.
  - intros st0 ->. reflexivity.
Qed.

Lemma cancel_leaves_kept_channel_only_witness :
  realtimeChannel (run humans relay_init [Start; Notify (inserted alice)]) = Some 0
  /\ channels (run humans relay_init [Start; Notify (inserted alice)]) = [true]
  /\ nth_error
       (channels (cancel humans (run humans relay_init [Start; Notify (inserted alice)])))
       0 <> Some true
  /\ realtimeChanges
       (cancel humans (run humans relay_init [Start; Notify (inserted alice)]))
     = [relayed humans alice].
Proof.
  destruct (cancel_leaves_kept_channel_only humans
              (run humans relay_init [Start; Notify (inserted alice)]) 0 eq_refl)
    as (H1 & _ & _ & H4 & _).
  split; [reflexivity |]. split; [reflexivity |].
  split; [exact H1 | exact H4].
Defined.

(** X18.  What the relay publishes for a new row is what a pull returns
    when that row is the whole table: the row as the only document,
    under the checkpoint made of its modification stamp and primary
    key. *)
Theorem relay_event_is_pull_event (self : SupabaseReplication) (r : Row)
  (n : nat) (st : remote) (p : Payload) (sink : list ChangeEvent) :
  rows st = [r] ->
  answers st ->
  0 < n ->
  eventType p <> "DELETE" ->
  new p = Some r ->
  exists ev,
    fst (pullHandler self None n st) = Returned ev
    /\ on_postgres_changes self p sink = sink ++ [ev]
    /\ documents ev = [r]
    /\ checkpoint ev
       = Some {| modified := get r (lastModifiedFieldName self);
                 primaryKeyValue := get r (primaryKey self) |}.
Proof.
  intros Hr Ha Hn Ht Hp. exists (relayed self r).
  rewrite (pullHandler_answers self None n st Ha), Hr.
  assert (E : pulled self None n [r] = [r]).
  { unfold pulled. cbn [filter]. rewrite selects_spec.
    destruct n as [| n]; [lia | simpl; now rewrite firstn_nil]. }
  rewrite E. repeat split.
  rewrite on_postgres_changes_qualifying. unfold qualifying.
  destruct (String.eqb_spec (eventType p) "DELETE"); [contradiction |].
  now rewrite Hp.
Qed.

Lemma relay_event_is_pull_event_witness :
  exists ev,
    fst (pullHandler humans None 5 (remote_of [alice])) = Returned ev
    /\ on_postgres_changes humans {| eventType := "INSERT"; new := Some alice |} []
       = [] ++ [ev]
    /\ documents ev = [alice]
    /\ checkpoint ev
       = Some {| modified := get alice (lastModifiedFieldName humans);
                 primaryKeyValue := get alice (primaryKey humans) |}.
Proof.
  exact (relay_event_is_pull_event humans alice 5 (remote_of [alice])
           {| eventType := "INSERT"; new := Some alice |} []
           eq_refl eq_refl ltac:(lia) ltac:(discriminate) eq_refl).
Defined.

(** ** The conflict handler of the tests *)

Lemma get_set_same (r : Row) (field : string) (v : value) :
  get (set r field v) field = v.
Proof.
  induction r as [| [k w] r IH]; simpl.
  - now rewrite String.eqb_refl.
  - destruct (String.eqb_spec k field) as [E | E]; simpl.
    + subst. now rewrite String.eqb_refl.
    + destruct (String.eqb_spec k field); [contradiction | exact IH].
Qed.

Lemma get_set_other (r : Row) (field other : string) (v : value) :
  other <> field -> get (set r field v) other = get r other.
Proof.
  intros H. induction r as [| [k w] r IH]; simpl.
  - destruct (String.eqb_spec field other); congruence.
  - destruct (String.eqb_spec k field) as [E | E]; simpl.
    + subst. destruct (String.eqb_spec field other); congruence.
    + now rewrite IH.
Qed.

Lemma set_set (r : Row) (field : string) (v w : value) :
  set (set r field v) field w = set r field w.
Proof.
  induction r as [| [k u] r IH]; simpl.
  - now rewrite String.eqb_refl.
  - destruct (String.eqb_spec k field) as [E | E]; simpl.
    + subst. now rewrite String.eqb_refl.
    + destruct (String.eqb_spec k field); [contradiction | now rewrite IH].
Qed.

(** X19.  [resolveConflictWithName] always reports a difference and
    resolves it to the new document state with its name replaced: the
    resolved document has the given name, agrees with the new state on
    every other field, does not depend on the master state, and
    resolving the result again with the same name changes nothing. *)
Theorem resolve_conflict_with_name (name : string)
  (input : TestUtils.RxConflictHandlerInput) :
  let out := TestUtils.resolveConflictWithName name input in
  TestUtils.isEqual out = false
  /\ get (TestUtils.documentData out) "name" = VString name
  /\ (forall field, field <> "name" ->
        get (TestUtils.documentData out) field
        = get (TestUtils.newDocumentState input) field)
  /\ (forall master,
        TestUtils.resolveConflictWithName name
          {| TestUtils.newDocumentState := TestUtils.newDocumentState input;
             TestUtils.realMasterState := master |}
        = out)
  /\ (forall master,
        TestUtils.resolveConflictWithName name
          {| TestUtils.newDocumentState := TestUtils.documentData out;
             TestUtils.realMasterState := master |}
        = out).
Proof.
  unfold TestUtils.resolveConflictWithName; simpl. repeat split.
  - apply get_set_same.
  - intros field H. now apply get_set_other.
  - intros master. now rewrite set_set.
Qed.
